(** * Kieskompas coalition picker: selection, aggregation and URL state

    A shallow embedding of [UIController] from [kieskompas/parser.js].

    Conventions of the model.
    - A JavaScript number that is read from the JSON document is a finite
      number; it is modelled as an exact rational ([Qc], rationals in lowest
      terms, so that equal numbers are equal terms).  Sums and products are
      exact: IEEE-754 rounding and overflow are outside the model.  Division
      is the one operation of the controller that leaves the finite numbers,
      so its result is a [JSNum] with [NaN] and the two infinities.
    - A JavaScript string is a [string], read as its UTF-8 text; splitting
      at commas, joining and comparing are the same on the bytes as on the
      code units.  [String.prototype.toUpperCase] and [String.prototype.trim]
      know all of Unicode: the methods of the controller that call them take
      them as parameters ([StringPrototype]), and [JSString.toUpperCase] and
      [JSString.trim] are their restriction to ASCII text, with which the
      examples are run.
    - The statements over [Qc] name the sums and quotients that the code
      evaluates; identities that hold of exact numbers only are not stated.
      [Binary64] has [calculateAverage] once more over binary64 numbers, to
      show where rounding changes a result.
    - A property access on [undefined] ([this.parties[index]] with an index
      that is out of range) throws; this is the [TypeError] of [Res].
    - The DOM is the part of the controller state that the methods read and
      write: the check boxes, the two text regions, the diagram and the
      query string of the location. *)

From Stdlib Require Import List Bool Arith Lia ZArith NArith.
From Stdlib Require Import Ascii String DecimalString.
From Stdlib Require Import QArith Qcanon Qround Field.
From Stdlib Require Import Permutation Sorted.
From Stdlib Require Import PrimFloat.
From Stdlib Require Uint63.
Import ListNotations.

Open Scope list_scope.
Open Scope string_scope.

(** ** Results of code that may throw *)

Inductive Res (A : Type) : Type :=
| Ok (a : A)
| TypeError.
Arguments Ok {A} a.
Arguments TypeError {A}.

Definition bind {A B} (r : Res A) (k : A -> Res B) : Res B :=
  match r with
  | Ok a => k a
  | TypeError => TypeError
  end.

Notation "'let*' x ':=' r 'in' k" := (bind r (fun x => k))
  (at level 10, x name, r at level 100, k at level 200).

(** [array.forEach] / [array.reduce] with a callback that may throw. *)
Fixpoint foldM {A S} (f : S -> A -> Res S) (l : list A) (acc : S) : Res S :=
  match l with
  | [] => Ok acc
  | a :: l' => let* acc' := f acc a in foldM f l' acc'
  end.

(** [array.map] with a callback that may throw. *)
Fixpoint mapM {A B} (f : A -> Res B) (l : list A) : Res (list B) :=
  match l with
  | [] => Ok []
  | a :: l' => let* b := f a in let* bs := mapM f l' in Ok (b :: bs)
  end.

(** ** JavaScript strings *)

Module JSString.

Definition comma : ascii := ","%char.

(** [String.prototype.toUpperCase] on ASCII text, one character. *)
Definition upper_ascii (c : ascii) : ascii :=
  let n := N_of_ascii c in
  if (97 <=? n)%N && (n <=? 122)%N then ascii_of_N (n - 32) else c.

Fixpoint toUpperCase (s : string) : string :=
  match s with
  | EmptyString => EmptyString
  | String c r => String (upper_ascii c) (toUpperCase r)
  end.

(** The ASCII white space removed by [String.prototype.trim]: TAB, LF, VT,
    FF, CR and the space. *)
Definition is_white (c : ascii) : bool :=
  let n := N_of_ascii c in
  ((9 <=? n)%N && (n <=? 13)%N) || (n =? 32)%N.

Fixpoint trimStart (s : string) : string :=
  match s with
  | EmptyString => EmptyString
  | String c r => if is_white c then trimStart r else s
  end.

Definition is_empty (s : string) : bool :=
  match s with EmptyString => true | _ => false end.

Fixpoint trimEnd (s : string) : string :=
  match s with
  | EmptyString => EmptyString
  | String c r =>
      let r' := trimEnd r in
      if is_white c && is_empty r' then EmptyString else String c r'
  end.

Definition trim (s : string) : string := trimEnd (trimStart s).

(** [s.split(",")]: never the empty array; [""] gives [[""]]. *)
Fixpoint split (s : string) : list string :=
  match s with
  | EmptyString => [EmptyString]
  | String c r =>
      if Ascii.eqb c comma then EmptyString :: split r
      else match split r with
           | h :: t => String c h :: t
           | [] => [String c EmptyString]
           end
  end.

(** [a.join(sep)]. *)
Fixpoint join (sep : string) (l : list string) : string :=
  match l with
  | [] => EmptyString
  | [a] => a
  | a :: l' => a ++ sep ++ join sep l'
  end.

(** [a.includes(s)] on an array of strings. *)
Definition includes (l : list string) (s : string) : bool :=
  existsb (String.eqb s) l.

(** A string is truthy when it is not empty. *)
Definition truthy (s : string) : bool := negb (is_empty s).

Fixpoint comma_free (s : string) : bool :=
  match s with
  | EmptyString => true
  | String c r => negb (Ascii.eqb c comma) && comma_free r
  end.

End JSString.

(** [String.prototype.toUpperCase] and [String.prototype.trim], on all of
    Unicode. *)
Class StringPrototype : Type := {
  toUpperCase : string -> string;
  trim : string -> string
}.

(** What is used of the two methods.  Upper case is given code point by code
    point and neither makes nor removes a comma, so that it can be taken
    between the commas; it maps white space to itself and nothing else to
    white space, so that it can be taken before or after [trim]; and it
    leaves no text empty except the empty one. *)
Class StringPrototypeLaws (sp : StringPrototype) : Prop := {
  toUpperCase_between_commas :
    forall s, JSString.split (toUpperCase s) = map toUpperCase (JSString.split s);
  toUpperCase_after_trim :
    forall s, toUpperCase (trim s) = trim (toUpperCase s);
  toUpperCase_empty :
    forall s, JSString.is_empty (toUpperCase s) = JSString.is_empty s
}.

(** The two methods on ASCII text. *)
Definition asciiStrings : StringPrototype := {|
  toUpperCase := JSString.toUpperCase;
  trim := JSString.trim
|}.

(** Text of ASCII characters only. *)
Fixpoint isAscii (s : string) : bool :=
  match s with
  | EmptyString => true
  | String c r => (N_of_ascii c <? 128)%N && isAscii r
  end.

(** ** JavaScript numbers *)

Open Scope Qc_scope.

(** The integer [z] as a number. *)
Definition num (z : Z) : Qc := Q2Qc (inject_Z z).

(** Comparisons of finite numbers. *)
Definition Qc_leb (a b : Qc) : bool := Qle_bool a b.
Definition Qc_ltb (a b : Qc) : bool := negb (Qle_bool b a).
Definition Qc_eqb (a b : Qc) : bool := Qeq_bool a b.

Inductive JSNum : Type :=
| Finite (q : Qc)
| PosInfinity
| NegInfinity
| NaN.

Module JSNumber.

(** [a / b] for finite [a] and [b].  The divisors of the controller are
    running totals that start at [0] and the size of a set, so a zero
    divisor is the positive zero. *)
Definition div (a b : Qc) : JSNum :=
  if Qc_eqb b 0 then
    if Qc_eqb a 0 then NaN
    else if Qc_ltb 0 a then PosInfinity else NegInfinity
  else Finite (a / b).

(** [n >= 0]; every comparison with [NaN] is false. *)
Definition ge0 (n : JSNum) : bool :=
  match n with
  | Finite q => Qc_leb 0 q
  | PosInfinity => true
  | NegInfinity => false
  | NaN => false
  end.

(** [Math.abs(n)]. *)
Definition abs (n : JSNum) : JSNum :=
  match n with
  | Finite q => Finite (if Qc_leb 0 q then q else - q)
  | PosInfinity => PosInfinity
  | NegInfinity => PosInfinity
  | NaN => NaN
  end.

(** [n + q] for a finite [q]. *)
Definition add (n : JSNum) (q : Qc) : JSNum :=
  match n with
  | Finite p => Finite (p + q)
  | other => other
  end.

Definition is_finite (n : JSNum) : bool :=
  match n with Finite _ => true | _ => false end.

Definition digits (n : Z) : string :=
  NilZero.string_of_uint (N.to_uint (Z.to_N n)).

(** [q.toFixed(1)] for [0 <= q] (below 1e21): the integer [n] with [n / 10]
    nearest to [q], the larger one on a tie, printed with one decimal.  The
    number is taken exactly, as everywhere in [JSNum]; it is the text of the
    page for the values that binary64 holds exactly, such as the integers. *)
Definition toFixed1_nonneg (q : Qc) : string :=
  let n := Qfloor (q * num 10 + Q2Qc (1 # 2)) in
  digits (n / 10) ++ "." ++ digits (n mod 10).

(** [n.toFixed(1)]. *)
Definition toFixed1 (n : JSNum) : string :=
  match n with
  | Finite q =>
      if Qc_leb 0 q then toFixed1_nonneg q
      else "-" ++ toFixed1_nonneg (- q)
  | PosInfinity => "Infinity"
  | NegInfinity => "-Infinity"
  | NaN => "NaN"
  end.

End JSNumber.

(** ** The party records of [parties-data.json] *)

Module Position.
Record t : Type := mk { x : Qc; y : Qc }.
End Position.

Module Axis.
Record t : Type := mk { value : Qc; direction : string }.
End Axis.

Module PoliticalPosition.
Record t : Type := mk { horizontal : option Axis.t; vertical : option Axis.t }.
End PoliticalPosition.

Module ElectionResults.
Record t : Type := mk { seats : Qc }.
End ElectionResults.

Record Party : Type := mkParty {
  name : string;
  shortName : string;
  position : Position.t;
  politicalPosition : PoliticalPosition.t;
  electionResults2025 : option ElectionResults.t
}.

(** ** The page *)

(** The query string of the location, as [URLSearchParams] sees it: the
    pairs in order, a key possibly more than once. *)
Module URLSearchParams.

Definition t : Type := list (string * string).

(** [params.get(k)]: the first value of the key, [None] for [null]. *)
Fixpoint get (p : t) (k : string) : option string :=
  match p with
  | [] => None
  | (k', v) :: r => if String.eqb k' k then Some v else get r k
  end.

Definition has (p : t) (k : string) : bool :=
  existsb (fun kv => String.eqb (fst kv) k) p.

(** [params.delete(k)]: every pair of the key goes. *)
Definition delete (p : t) (k : string) : t :=
  filter (fun kv => negb (String.eqb (fst kv) k)) p.

(** [params.set(k, v)]: the first pair of the key takes the value and the
    other pairs of the key go; a new key is appended. *)
Fixpoint set (p : t) (k v : string) : t :=
  match p with
  | [] => [(k, v)]
  | (k', v') :: r =>
      if String.eqb k' k then (k, v) :: delete r k else (k', v') :: set r k v
  end.

End URLSearchParams.

(** The point at which the marker is drawn ([cx], [cy] of both circles). *)
Module Marker.
Record t : Type := mk { cx : JSNum; cy : JSNum }.
End Marker.

(** The diagram inside [svgDisplay]: whether it has the element of class
    [Compass__compass], and the element of id [averageMarker] if any. *)
Module Svg.
Record t : Type := mk { compass : bool; averageMarker : option Marker.t }.
End Svg.

(** The result of [calculateAverage]. *)
Module Average.
Record t : Type := mk { x : JSNum; y : JSNum }.
End Average.

(** One item of the coalition statistics, shown as [`${value.toFixed(1)}%
    ${label}`]. *)
Module AxisStat.
Record t : Type := mk { value : JSNum; label : string }.
Definition render (a : t) : string :=
  JSNumber.toFixed1 (value a) ++ "% " ++ label a.
End AxisStat.

(** What [updateCoalitionStats] writes into [coalitionStatsContent]. *)
Module CoalitionStats.
Record t : Type := mk {
  totalSeats : Qc;
  horizontal : AxisStat.t;
  vertical : AxisStat.t
}.
End CoalitionStats.

Inductive Display : Type := DisplayUnset | DisplayNone | DisplayInlineBlock.

(** The state of the controller and of the part of the page it owns.
    [selectedParties] is the [Set] in insertion order; [partyPicker] holds the
    [checked] flag of the check boxes [party-0], [party-1], ... in document
    order (the check box at place [i] carries [data-index = i]);
    [weightedAverageCheckbox] is [None] when the page has no such element. *)
Record UIController : Type := mkUI {
  parties : list Party;
  selectedParties : list nat;
  weightedAverageCheckbox : option bool;
  partyPicker : list bool;
  selectedCount : string;
  coalitionStats : Display;
  coalitionStatsContent : option CoalitionStats.t;
  svgDisplay : option Svg.t;
  location : URLSearchParams.t
}.

Definition set_selectedParties (s : list nat) (c : UIController) :=
  mkUI (parties c) s (weightedAverageCheckbox c) (partyPicker c)
       (selectedCount c) (coalitionStats c) (coalitionStatsContent c)
       (svgDisplay c) (location c).
Definition set_partyPicker (b : list bool) (c : UIController) :=
  mkUI (parties c) (selectedParties c) (weightedAverageCheckbox c) b
       (selectedCount c) (coalitionStats c) (coalitionStatsContent c)
       (svgDisplay c) (location c).
Definition set_selectedCount (s : string) (c : UIController) :=
  mkUI (parties c) (selectedParties c) (weightedAverageCheckbox c)
       (partyPicker c) s (coalitionStats c) (coalitionStatsContent c)
       (svgDisplay c) (location c).
Definition set_coalitionStats (d : Display) (c : UIController) :=
  mkUI (parties c) (selectedParties c) (weightedAverageCheckbox c)
       (partyPicker c) (selectedCount c) d (coalitionStatsContent c)
       (svgDisplay c) (location c).
Definition set_coalitionStatsContent (s : CoalitionStats.t) (c : UIController) :=
  mkUI (parties c) (selectedParties c) (weightedAverageCheckbox c)
       (partyPicker c) (selectedCount c) (coalitionStats c) (Some s)
       (svgDisplay c) (location c).
Definition set_svgDisplay (s : option Svg.t) (c : UIController) :=
  mkUI (parties c) (selectedParties c) (weightedAverageCheckbox c)
       (partyPicker c) (selectedCount c) (coalitionStats c)
       (coalitionStatsContent c) s (location c).
Definition set_location (l : URLSearchParams.t) (c : UIController) :=
  mkUI (parties c) (selectedParties c) (weightedAverageCheckbox c)
       (partyPicker c) (selectedCount c) (coalitionStats c)
       (coalitionStatsContent c) (svgDisplay c) l.

(** [this.parties[index]], about to be dereferenced. *)
Definition party (c : UIController) (index : nat) : Res Party :=
  match nth_error (parties c) index with
  | Some p => Ok p
  | None => TypeError
  end.

(** [this.weightedAverageCheckbox && this.weightedAverageCheckbox.checked] *)
Definition useWeighted (c : UIController) : bool :=
  match weightedAverageCheckbox c with
  | Some checked => checked
  | None => false
  end.

(** ** [getQueryParties] *)

Definition getQueryParties {sp : StringPrototype} (c : UIController)
    : list string :=
  match URLSearchParams.get (location c) "parties" with
  | None => []
  | Some partiesParam =>
      if JSString.truthy partiesParam
      then map (fun p => toUpperCase (trim p)) (JSString.split partiesParam)
      else []
  end.

(** ** [updateQueryParams] *)

Definition updateQueryParams (selectedShortNames : list string)
    (c : UIController) : UIController :=
  let url := location c in
  let url :=
    if (List.length selectedShortNames =? 0)%nat
    then URLSearchParams.delete url "parties"
    else URLSearchParams.set url "parties" (JSString.join "," selectedShortNames)
  in
  set_location url c.

(** ** [updateCoalitionStats] *)

(** The weight of a party in [updateCoalitionStats]:
    [useWeighted && party.electionResults2025 ? party.electionResults2025.seats : 1] *)
Definition weight (weighted : bool) (p : Party) : Qc :=
  if weighted then
    match electionResults2025 p with
    | Some r => ElectionResults.seats r
    | None => 1
    end
  else 1.

(** [axis ? axis.value : 0], then [axis?.direction === positive ? v : -v]. *)
Definition signed (positive : string) (axis : option Axis.t) : Qc :=
  let v := match axis with
           | Some a => Axis.value a
           | None => 0
           end in
  match axis with
  | Some a => if String.eqb (Axis.direction a) positive then v else - v
  | None => - v
  end.

Definition horizontalSigned (p : Party) : Qc :=
  signed "rechts" (PoliticalPosition.horizontal (politicalPosition p)).
Definition verticalSigned (p : Party) : Qc :=
  signed "conservatief" (PoliticalPosition.vertical (politicalPosition p)).

(** The body of the loop once the party is at hand; the running totals are
    [sumHorizontal], [sumVertical] and [totalWeight]. *)
Definition statsBody (weighted : bool) (acc : Qc * Qc * Qc) (p : Party)
    : Qc * Qc * Qc :=
  let '(sumHorizontal, sumVertical, totalWeight) := acc in
  let w := weight weighted p in
  (sumHorizontal + horizontalSigned p * w,
   sumVertical + verticalSigned p * w,
   totalWeight + w).

Definition statsStep (c : UIController) (acc : Qc * Qc * Qc) (index : nat)
    : Res (Qc * Qc * Qc) :=
  let* p := party c index in Ok (statsBody (useWeighted c) acc p).

(** [avg >= 0 ? positive : negative] with [Math.abs(avg)]. *)
Definition relabel (positive negative : string) (avg : JSNum) : AxisStat.t :=
  AxisStat.mk (JSNumber.abs avg)
              (if JSNumber.ge0 avg then positive else negative).

Definition updateCoalitionStats (totalSeats : Qc) (c : UIController)
    : Res UIController :=
  if (List.length (selectedParties c) =? 0)%nat
  then Ok (set_coalitionStats DisplayNone c)
  else
    let* sums := foldM (statsStep c) (selectedParties c) (0, 0, 0) in
    let '(sumHorizontal, sumVertical, totalWeight) := sums in
    let avgHorizontal := JSNumber.div sumHorizontal totalWeight in
    let avgVertical := JSNumber.div sumVertical totalWeight in
    let html :=
      CoalitionStats.mk totalSeats
        (relabel "rechts" "links" avgHorizontal)
        (relabel "conservatief" "progressief" avgVertical) in
    Ok (set_coalitionStats DisplayInlineBlock
          (set_coalitionStatsContent html c)).

(** ** [calculateAverage] *)

(** Weighted branch, the body of the loop once the party is at hand:
    [sumX], [sumY], [totalSeats]. *)
Definition weightedBody (acc : Qc * Qc * Qc) (p : Party) : Qc * Qc * Qc :=
  let '(sumX, sumY, totalSeats) := acc in
  let seats := match electionResults2025 p with
               | Some r => ElectionResults.seats r
               | None => 1
               end in
  (sumX + Position.x (position p) * seats,
   sumY + Position.y (position p) * seats,
   totalSeats + seats).

Definition weightedStep (c : UIController) (acc : Qc * Qc * Qc) (index : nat)
    : Res (Qc * Qc * Qc) :=
  let* p := party c index in Ok (weightedBody acc p).

(** Simple branch: [sumX], [sumY]. *)
Definition simpleBody (acc : Qc * Qc) (p : Party) : Qc * Qc :=
  let '(sumX, sumY) := acc in
  (sumX + Position.x (position p), sumY + Position.y (position p)).

Definition simpleStep (c : UIController) (acc : Qc * Qc) (index : nat)
    : Res (Qc * Qc) :=
  let* p := party c index in Ok (simpleBody acc p).

(** The size of the set, as a number. *)
Definition size (c : UIController) : Qc :=
  num (Z.of_nat (List.length (selectedParties c))).

Definition calculateAverage (c : UIController) : Res (option Average.t) :=
  if (List.length (selectedParties c) =? 0)%nat then Ok None
  else if useWeighted c then
    let* sums := foldM (weightedStep c) (selectedParties c) (0, 0, 0) in
    let '(sumX, sumY, totalSeats) := sums in
    Ok (Some (Average.mk
      (if Qc_ltb 0 totalSeats then JSNumber.div sumX totalSeats
       else JSNumber.div sumX (size c))
      (if Qc_ltb 0 totalSeats then JSNumber.div sumY totalSeats
       else JSNumber.div sumY (size c))))
  else
    let* sums := foldM (simpleStep c) (selectedParties c) (0, 0) in
    let '(sumX, sumY) := sums in
    Ok (Some (Average.mk (JSNumber.div sumX (size c))
                         (JSNumber.div sumY (size c)))).

(** ** [updateCompassMarker] *)

Definition iconOffset : Qc := num 5.

Definition updateCompassMarker (c : UIController) : Res UIController :=
  match svgDisplay c with
  | None => Ok c
  | Some svg =>
      (* the existing marker, if any, is removed *)
      let svg := Svg.mk (Svg.compass svg) None in
      let c := set_svgDisplay (Some svg) c in
      let* average := calculateAverage c in
      match average with
      | None => Ok c
      | Some average =>
          if negb (Svg.compass svg) then Ok c
          else
            let markerX := JSNumber.add (Average.x average) iconOffset in
            let markerY := JSNumber.add (Average.y average) iconOffset in
            Ok (set_svgDisplay
                  (Some (Svg.mk (Svg.compass svg)
                                (Some (Marker.mk markerX markerY)))) c)
      end
  end.

(** ** [handlePartySelection] *)

(** The indices of the checked boxes, in document order, from [index] on. *)
Fixpoint checkedFrom (index : nat) (checkboxes : list bool) : list nat :=
  match checkboxes with
  | [] => []
  | checked :: rest =>
      if checked then index :: checkedFrom (S index) rest
      else checkedFrom (S index) rest
  end.

(** The [reduce] that computes [totalSeats]. *)
Definition seatsBody (sum : Qc) (p : Party) : Qc :=
  let seats := match electionResults2025 p with
               | Some r => ElectionResults.seats r
               | None => 0
               end in
  sum + seats.

Definition seatsStep (c : UIController) (sum : Qc) (index : nat) : Res Qc :=
  let* p := party c index in Ok (seatsBody sum p).

Definition totalSeats (c : UIController) : Res Qc :=
  foldM (seatsStep c) (selectedParties c) 0.

Definition selectedShortNamesArray (c : UIController) : Res (list string) :=
  mapM (fun index => let* p := party c index in Ok (shortName p))
       (selectedParties c).

Definition handlePartySelection (c : UIController) : Res UIController :=
  let c := set_selectedParties (checkedFrom 0 (partyPicker c)) c in
  let count := List.length (selectedParties c) in
  let* r :=
    if (count =? 0)%nat then
      Ok (set_coalitionStats DisplayNone
            (set_selectedCount "Geselecteerd: geen" c), [])
    else
      let* names := selectedShortNamesArray c in
      let selectedShortNames := JSString.join ", " names in
      let* total := totalSeats c in
      let c := set_selectedCount ("Geselecteerd: " ++ selectedShortNames) c in
      let* c := updateCoalitionStats total c in
      Ok (c, names) in
  let c := updateQueryParams (snd r) (fst r) in
  updateCompassMarker c.

(** ** [preSelectFromQuery] *)

(** The [forEach] over the parties: the box [party-index], when the page has
    it, is checked if the upper-cased short name is among the query names. *)
Fixpoint preSelectFrom {sp : StringPrototype} (queryParties : list string)
    (ps : list Party) (checkboxes : list bool) : list bool :=
  match ps, checkboxes with
  | p :: ps', checked :: rest =>
      (if JSString.includes queryParties (toUpperCase (shortName p))
       then true else checked)
      :: preSelectFrom queryParties ps' rest
  | _, _ => checkboxes
  end.

(** The callback handed to [requestAnimationFrame] is run as the next step. *)
Definition preSelectFromQuery {sp : StringPrototype} (c : UIController)
    : Res UIController :=
  let queryParties := getQueryParties c in
  if (List.length queryParties =? 0)%nat then Ok c
  else
    let c := set_partyPicker
               (preSelectFrom queryParties (parties c) (partyPicker c)) c in
    handlePartySelection c.

(** [displayPartyPicker]: one unchecked box per party.  The markup is built
    from the names and the direction labels as they are; this is the page
    for text without the characters that open a tag or close an attribute
    (see [plainNames]). *)
Definition displayPartyPicker (c : UIController) : UIController :=
  set_partyPicker (repeat false (List.length (parties c))) c.

(** ** [handleParse] *)

(** [a.electionResults2025 ? a.electionResults2025.seats : 0] *)
Definition sortKey (p : Party) : Qc :=
  match electionResults2025 p with
  | Some r => ElectionResults.seats r
  | None => 0
  end.

(** [data.parties.sort((a, b) => seatsB - seatsA)]: by seats, descending;
    the sort of an array is stable. *)
Fixpoint insertBySeats (p : Party) (sorted : list Party) : list Party :=
  match sorted with
  | [] => [p]
  | q :: rest =>
      if Qc_ltb (sortKey p) (sortKey q) then q :: insertBySeats p rest
      else p :: q :: rest
  end.

Definition sortBySeats (data : list Party) : list Party :=
  fold_right insertBySeats [] data.

Definition set_parties (ps : list Party) (c : UIController) :=
  mkUI ps (selectedParties c) (weightedAverageCheckbox c) (partyPicker c)
       (selectedCount c) (coalitionStats c) (coalitionStatsContent c)
       (svgDisplay c) (location c).

(** The path of [handleParse] on which both loads succeed: [data] is the
    [parties] array of the JSON document and [svg] the diagram. *)
Definition handleParse {sp : StringPrototype} (data : list Party)
    (svg : Svg.t) (c : UIController) : Res UIController :=
  let c := set_parties (sortBySeats data) c in
  let c := displayPartyPicker c in
  let c := set_svgDisplay (Some svg) c in
  preSelectFromQuery c.

(** The controller as the constructor leaves it, on a page with the given
    weighting switch and query string. *)
Definition newUIController (weightedAverageCheckbox : option bool)
    (url : URLSearchParams.t) : UIController :=
  mkUI [] [] weightedAverageCheckbox [] "" DisplayUnset None None url.


(** ** Reference definitions for the statements below *)

(** The parties that the indices of the selection stand for, in the order of
    the set; every index has to be an index of the party table. *)
Definition selected (c : UIController) : Res (list Party) :=
  mapM (party c) (selectedParties c).

(** The sum of a list of numbers. *)
Definition sum (l : list Qc) : Qc := fold_right Qcplus 0 l.

(** The number of elements of a list, as a number. *)
Definition count {A} (l : list A) : Qc := num (Z.of_nat (List.length l)).

Definition posX (p : Party) : Qc := Position.x (position p).
Definition posY (p : Party) : Qc := Position.y (position p).

Definition hasSeats (p : Party) : bool :=
  match electionResults2025 p with Some _ => true | None => false end.

(** Seats with missing seat data counted as [d]. *)
Definition seatsOr (d : Qc) (p : Party) : Qc :=
  match electionResults2025 p with
  | Some r => ElectionResults.seats r
  | None => d
  end.

(** The arithmetic mean of the values [f p]. *)
Definition mean (f : Party -> Qc) (ps : list Party) : Qc :=
  sum (map f ps) / count ps.

(** The mean of the values [f p] with the weights [w p]. *)
Definition weightedMean (w f : Party -> Qc) (ps : list Party) : Qc :=
  sum (map (fun p => f p * w p) ps) / sum (map w ps).

(** The same party with [k] times the seats. *)
Definition scaleSeats (k : Qc) (p : Party) : Party :=
  mkParty (name p) (shortName p) (position p) (politicalPosition p)
    (match electionResults2025 p with
     | Some r => Some (ElectionResults.mk (k * ElectionResults.seats r))
     | None => None
     end).


(** Pairwise different strings. *)
Fixpoint distinct (l : list string) : bool :=
  match l with
  | [] => true
  | s :: r => negb (JSString.includes r s) && distinct r
  end.

(** Short names that survive the query string: not empty, free of commas,
    without white space at either end, and pairwise different also when
    letter case is ignored. *)
Definition nameOk (s : string) : bool :=
  JSString.truthy s && JSString.comma_free s && String.eqb (JSString.trim s) s.

Definition shortNamesOk (ps : list Party) : bool :=
  forallb (fun p => nameOk (shortName p)) ps
  && distinct (map (fun p => JSString.toUpperCase (shortName p)) ps).

(** The marker of the page, if there is one. *)
Definition marker (c : UIController) : option Marker.t :=
  match svgDisplay c with
  | Some svg => Svg.averageMarker svg
  | None => None
  end.

(** ** A small page for the examples

    Four parties with the short names and the seat counts of the data
    extractor ([getShortName], [getElectionResults2025]); BIJ1 stands for a
    party that the extractor has no seats and no title text for.  The
    coordinates are illustrative. *)

Definition axis (v : Z) (d : string) : option Axis.t :=
  Some (Axis.mk (num v) d).

Definition D66 : Party :=
  mkParty "Democraten 66" "D66" (Position.mk (num 30) (num 25))
    (PoliticalPosition.mk (axis 20 "links") (axis 45 "progressief"))
    (Some (ElectionResults.mk (num 26))).

Definition VVD : Party :=
  mkParty "Volkspartij voor Vrijheid en Democratie" "VVD"
    (Position.mk (num 70) (num 50))
    (PoliticalPosition.mk (axis 40 "rechts") (axis 5 "conservatief"))
    (Some (ElectionResults.mk (num 22))).

Definition PvdAGL : Party :=
  mkParty "Partij van de Arbeid/GroenLinks" "PvdA-GL"
    (Position.mk (num 20) (num 30))
    (PoliticalPosition.mk (axis 45 "links") (axis 35 "progressief"))
    (Some (ElectionResults.mk (num 20))).

Definition NSC : Party :=
  mkParty "Nieuw Sociaal Contract" "NSC" (Position.mk (num 55) (num 60))
    (PoliticalPosition.mk (axis 10 "rechts") (axis 15 "conservatief"))
    (Some (ElectionResults.mk (num 0))).

Definition BIJ1 : Party :=
  mkParty "BIJ1" "BIJ1" (Position.mk (num 10) (num 15))
    (PoliticalPosition.mk None None) None.

Definition demoParties : list Party := [D66; VVD; PvdAGL; NSC; BIJ1].

(** The page with the given boxes checked, after [handlePartySelection] has
    rebuilt the set, with the weighting switch as given; the diagram is
    loaded and carries no marker. *)
Definition demo (table : list Party) (checkboxes : list bool)
    (weighted : bool) : UIController :=
  mkUI table (checkedFrom 0 checkboxes) (Some weighted) checkboxes
       "" DisplayUnset None (Some (Svg.mk true None)) [].

(** The example of the specification: A with 40% rechts, B with 20% links,
    10 seats each. *)
Definition partyA : Party :=
  mkParty "A" "A" (Position.mk (num 10) (num 50))
    (PoliticalPosition.mk (axis 40 "rechts") None)
    (Some (ElectionResults.mk (num 10))).
Definition partyB : Party :=
  mkParty "B" "B" (Position.mk (num 90) (num 50))
    (PoliticalPosition.mk (axis 20 "links") None)
    (Some (ElectionResults.mk (num 10))).

(** The signed mean of an axis over the parties [ps]: weighted by the seats
    (1 for a party without seat data) or not weighted. *)
Definition signedAverage (weighted : bool) (f : Party -> Qc)
    (ps : list Party) : Qc :=
  if weighted then weightedMean (seatsOr 1) f ps else mean f ps.

(** A signed mean as it is shown: the magnitude with the label of its sign. *)
Definition display (positive negative : string) (m : Qc) : AxisStat.t :=
  if Qc_leb 0 m then AxisStat.mk (Finite m) positive
  else AxisStat.mk (Finite (- m)) negative.

(** The statistics on the page after a step, if the step went through. *)
Definition statsOf (r : Res UIController) : option CoalitionStats.t :=
  match r with
  | Ok c => coalitionStatsContent c
  | TypeError => None
  end.

(** The page before any selection: the boxes as given, an empty set. *)
Definition page (table : list Party) (checkboxes : list bool)
    (weighted : bool) (url : URLSearchParams.t) : UIController :=
  mkUI table [] (Some weighted) checkboxes
       "" DisplayUnset None (Some (Svg.mk true None)) url.

(** The selection and the [parties] parameter after a step, if the step
    went through. *)
Definition selectionOf (r : Res UIController) : option (list nat) :=
  match r with
  | Ok c => Some (selectedParties c)
  | TypeError => None
  end.

Definition queryOf (r : Res UIController) : option string :=
  match r with
  | Ok c => URLSearchParams.get (location c) "parties"
  | TypeError => None
  end.

(** A party known by its short name only. *)
Definition named (s : string) : Party :=
  mkParty s s (Position.mk (num 50) (num 50)) (PoliticalPosition.mk None None)
    None.

(** A party that the extractor has no short name for keeps its full name
    as short name; this one has a comma in it. *)
Definition LijstJansen : Party :=
  mkParty "Lijst Jansen, Piet" "Lijst Jansen, Piet"
    (Position.mk (num 40) (num 40)) (PoliticalPosition.mk None None) None.

(** The parties of the divergence example of the specification: A with 20
    seats at x = 10, B with 0 seats at x = 90. *)
Definition specA : Party :=
  mkParty "A" "A" (Position.mk (num 10) (num 40))
    (PoliticalPosition.mk None None) (Some (ElectionResults.mk (num 20))).
Definition specB : Party :=
  mkParty "B" "B" (Position.mk (num 90) (num 40))
    (PoliticalPosition.mk None None) (Some (ElectionResults.mk (num 0))).

(** A party whose icon is at (45, 30). *)
Definition specC : Party :=
  mkParty "C" "C" (Position.mk (num 45) (num 30))
    (PoliticalPosition.mk None None) None.

(** ** Further reference definitions *)

(** [p] may stand before [q] in a table sorted by seats, descending. *)
Definition bySeatsDescending (p q : Party) : Prop := sortKey q <= sortKey p.

(** How often a key occurs in a query string. *)
Definition occurrences (p : URLSearchParams.t) (k : string) : nat :=
  List.length (filter (fun kv => String.eqb (fst kv) k) p).

(** The marker that belongs to an average on a diagram with or without the
    compass surface. *)
Definition markerFor (compass : bool) (a : option Average.t)
    : option Marker.t :=
  match a with
  | None => None
  | Some a =>
      if compass
      then Some (Marker.mk (JSNumber.add (Average.x a) iconOffset)
                           (JSNumber.add (Average.y a) iconOffset))
      else None
  end.

(** The statistics that belong to the selected parties [ps]. *)
Definition statsFor (weighted : bool) (ps : list Party) : CoalitionStats.t :=
  let w := weight weighted in
  CoalitionStats.mk (sum (map (seatsOr 0) ps))
    (relabel "rechts" "links"
       (JSNumber.div (sum (map (fun p => horizontalSigned p * w p) ps))
                     (sum (map w ps))))
    (relabel "conservatief" "progressief"
       (JSNumber.div (sum (map (fun p => verticalSigned p * w p) ps))
                     (sum (map w ps)))).

(** The page that [handlePartySelection] leaves behind when the checked
    boxes stand for the parties [ps] and their average is [a]. *)
Definition afterSelection (c : UIController) (ps : list Party)
    (a : option Average.t) : UIController :=
  let names := map shortName ps in
  mkUI (parties c)
       (checkedFrom 0 (partyPicker c))
       (weightedAverageCheckbox c)
       (partyPicker c)
       (match ps with
        | [] => "Geselecteerd: geen"
        | _ => "Geselecteerd: " ++ JSString.join ", " names
        end)
       (match ps with [] => DisplayNone | _ => DisplayInlineBlock end)
       (match ps with
        | [] => coalitionStatsContent c
        | _ => Some (statsFor (useWeighted c) ps)
        end)
       (match svgDisplay c with
        | None => None
        | Some svg => Some (Svg.mk (Svg.compass svg)
                                   (markerFor (Svg.compass svg) a))
        end)
       (location (updateQueryParams names c)).

(** The page after a step, or [d] if the step threw. *)
Definition orElse (r : Res UIController) (d : UIController) : UIController :=
  match r with
  | Ok c => c
  | TypeError => d
  end.

(** A party that carries weight in the weighted average. *)
Definition hasWeight (p : Party) : bool := negb (Qc_eqb (seatsOr 1 p) 0).

(** ** [filterParties] *)

Module JSSearch.

(** [String.prototype.toLowerCase] on ASCII text, one character. *)
Definition lower_ascii (c : ascii) : ascii :=
  let n := N_of_ascii c in
  if (65 <=? n)%N && (n <=? 90)%N then ascii_of_N (n + 32) else c.

Fixpoint toLowerCase (s : string) : string :=
  match s with
  | EmptyString => EmptyString
  | String c r => String (lower_ascii c) (toLowerCase r)
  end.

(** [s.startsWith(t)] *)
Fixpoint startsWith (s t : string) : bool :=
  match t with
  | EmptyString => true
  | String b t' =>
      match s with
      | EmptyString => false
      | String a s' => Ascii.eqb a b && startsWith s' t'
      end
  end.

(** [s.includes(t)]: [t] starts at some place of [s]. *)
Fixpoint includes (s t : string) : bool :=
  startsWith s t
  || match s with
     | EmptyString => false
     | String _ s' => includes s' t
     end.

End JSSearch.

(** An element of class [party-checkbox]: the two data attributes that
    [filterParties] reads and the [style.display] that it writes. *)
Module PartyElement.
Record t : Type := mk {
  partyName : string;
  partyShort : string;
  display : string
}.
End PartyElement.

(** [filterParties], with the value of the search box and the elements of
    class [party-checkbox] inside the picker. *)
Definition filterParties (searchBoxValue : string)
    (partyElements : list PartyElement.t) : list PartyElement.t :=
  let searchTerm := JSSearch.toLowerCase searchBoxValue in
  map (fun element =>
         let partyName := PartyElement.partyName element in
         let partyShort := PartyElement.partyShort element in
         if JSSearch.includes partyName searchTerm
            || JSSearch.includes partyShort searchTerm
         then PartyElement.mk partyName partyShort ""
         else PartyElement.mk partyName partyShort "none")
      partyElements.

(** An element is on show when its [style.display] is not "none". *)
Definition shown (e : PartyElement.t) : bool :=
  negb (String.eqb (PartyElement.display e) "none").

(** ** The short names of the data extractor *)

(** The table of [getShortName] in the extractor script. *)
Definition shortNames : list (string * string) :=
  [ ("Volkspartij voor Vrijheid en Democratie", "VVD");
    ("Partij Voor de Vrijheid", "PVV");
    ("DENK", "DENK");
    ("Partij van de Arbeid/GroenLinks", "PvdA-GL");
    ("Socialistische Partij", "SP");
    ("BoerBurgerBeweging", "BBB");
    ("Democraten 66", "D66");
    ("Christen-Democratisch Appèl", "CDA");
    ("Partij voor de Dieren", "PvdD");
    ("Forum voor Democratie", "FvD");
    ("Staatkundig Gereformeerde Partij", "SGP");
    ("JA21", "JA21");
    ("50PLUS", "50PLUS");
    ("Nieuw Sociaal Contract", "NSC");
    ("ChristenUnie", "CU");
    ("Volt", "Volt") ].

(** The short names that the table gives out. *)
Definition knownShortNames : list string := map snd shortNames.

(** Upper case tells the strings of a list apart. *)
Definition upperInjectiveOn (l : list string) : bool :=
  forallb (fun s =>
    forallb (fun t =>
      implb (String.eqb (JSString.toUpperCase s) (JSString.toUpperCase t))
            (String.eqb s t)) l) l.

(** ** Conditions on the document and on a selection *)

(** Text without ["<"] and without the double quote: interpolated into the
    markup of [displayPartyPicker] it adds no element and no attribute. *)
Fixpoint plainText (s : string) : bool :=
  match s with
  | EmptyString => true
  | String c r =>
      negb (Ascii.eqb c "<"%char) && negb (Ascii.eqb c (ascii_of_N 34))
      && plainText r
  end.

Definition plainAxis (a : option Axis.t) : bool :=
  match a with
  | Some a => plainText (Axis.direction a)
  | None => true
  end.

(** A document whose names and direction labels are plain text. *)
Definition plainNames (data : list Party) : bool :=
  forallb (fun p =>
             plainText (name p) && plainText (shortName p)
             && plainAxis (PoliticalPosition.horizontal (politicalPosition p))
             && plainAxis (PoliticalPosition.vertical (politicalPosition p)))
          data.

(** The parties whose boxes are checked, in the order of the table. *)
Definition checkedParties (table : list Party) (checkboxes : list bool)
    : list Party :=
  map fst (filter snd (combine table checkboxes)).

(** A selection that comes back from the query string: every selected short
    name is free of commas and has no white space at either end, the names
    joined by commas are not the empty text, and no party that is not
    selected has the short name of a selected one, letter case ignored. *)
Definition survivesQuery {sp : StringPrototype} (table : list Party)
    (checkboxes : list bool) : bool :=
  let names := map shortName (checkedParties table checkboxes) in
  forallb (fun n => JSString.comma_free n && String.eqb (trim n) n) names
  && JSString.truthy (JSString.join "," names)
  && forallb (fun pb =>
                snd pb
                || negb (JSString.includes (map toUpperCase names)
                           (toUpperCase (shortName (fst pb)))))
             (combine table checkboxes).


(** ** [calculateAverage] over binary64

    The numbers of the page are binary64.  This is [calculateAverage] once
    more, with the sums, products and quotients of the language. *)
Module Binary64.

Record Party : Type := mkParty {
  x : float;
  y : float;
  seats : option float
}.

(** [this.parties[index]], about to be dereferenced. *)
Definition party (parties : list Party) (index : nat) : Res Party :=
  match nth_error parties index with
  | Some p => Ok p
  | None => TypeError
  end.

Definition weightedBody (acc : float * float * float) (p : Party)
    : float * float * float :=
  let '(sumX, sumY, totalSeats) := acc in
  let seats := match seats p with
               | Some s => s
               | None => 1%float
               end in
  ((sumX + x p * seats)%float, (sumY + y p * seats)%float,
   (totalSeats + seats)%float).

Definition simpleBody (acc : float * float) (p : Party) : float * float :=
  let '(sumX, sumY) := acc in
  ((sumX + x p)%float, (sumY + y p)%float).

(** The size of the set, as a number. *)
Definition size (selectedParties : list nat) : float :=
  PrimFloat.of_uint63 (Uint63.of_Z (Z.of_nat (List.length selectedParties))).

Definition calculateAverage (parties : list Party)
    (selectedParties : list nat) (useWeighted : bool)
    : Res (option (float * float)) :=
  if (List.length selectedParties =? 0)%nat then Ok None
  else if useWeighted then
    let* sums := foldM (fun acc index =>
                          let* p := party parties index in
                          Ok (weightedBody acc p))
                       selectedParties (0%float, 0%float, 0%float) in
    let '(sumX, sumY, totalSeats) := sums in
    Ok (Some
      (if PrimFloat.ltb 0%float totalSeats then (sumX / totalSeats)%float
       else (sumX / size selectedParties)%float,
       if PrimFloat.ltb 0%float totalSeats then (sumY / totalSeats)%float
       else (sumY / size selectedParties)%float))
  else
    let* sums := foldM (fun acc index =>
                          let* p := party parties index in
                          Ok (simpleBody acc p))
                       selectedParties (0%float, 0%float) in
    let '(sumX, sumY) := sums in
    Ok (Some ((sumX / size selectedParties)%float,
              (sumY / size selectedParties)%float)).

(** The same party with [k] times the seats. *)
Definition scaleSeats (k : float) (p : Party) : Party :=
  mkParty (x p) (y p)
    (match seats p with
     | Some s => Some (k * s)%float
     | None => None
     end).



End Binary64.
(** * Properties *)

(** Equal numbers are equal terms, up to the proof that the fraction is in
    lowest terms; [js_eq] decides an equation between evaluated results. *)
Ltac qc_canon :=
  match goal with
  | |- @eq Qc _ _ => apply Qc_is_canon; vm_compute; reflexivity
  end.
Ltac js_eq :=
  vm_compute; repeat first [ reflexivity | qc_canon | progress f_equal ].

(** ** The models of strings and numbers on examples *)

Example split_ex : JSString.split "vvd, d66,,CDA " = ["vvd"; " d66"; ""; "CDA "].
Proof. reflexivity. Qed.
Example trim_ex : JSString.trim "  Pv dA-gl  " = "Pv dA-gl".
Proof. reflexivity. Qed.
Example upper_ex : JSString.toUpperCase "PvdA-gl 50plus" = "PVDA-GL 50PLUS".
Proof. reflexivity. Qed.
Example join_ex : JSString.join "," ["VVD"; "D66"; "CDA"] = "VVD,D66,CDA".
Proof. reflexivity. Qed.
Example toFixed1_ex1 : JSNumber.toFixed1 (Finite (num 10)) = "10.0".
Proof. reflexivity. Qed.
Example toFixed1_ex2 : JSNumber.toFixed1 (Finite (Q2Qc (1234 # 100))) = "12.3".
Proof. reflexivity. Qed.
Example toFixed1_ex3 : JSNumber.toFixed1 (Finite (Q2Qc (5 # 100))) = "0.1".
Proof. reflexivity. Qed.
Example div_ex :
  JSNumber.div 0 0 = NaN /\ JSNumber.div (num 6) (num 4) = Finite (Q2Qc (3 # 2)).
Proof. split; js_eq. Qed.

(** ** Strings: upper case against [split], [trim] and [join] *)

Section StringFacts.
Import JSString.

Lemma upper_ascii_comma (c : ascii) :
  Ascii.eqb (upper_ascii c) comma = Ascii.eqb c comma.
Proof. destruct c as [[] [] [] [] [] [] [] []]; reflexivity. Qed.

Lemma upper_ascii_white (c : ascii) : is_white (upper_ascii c) = is_white c.
Proof. destruct c as [[] [] [] [] [] [] [] []]; reflexivity. Qed.

Lemma toUpperCase_is_empty (s : string) :
  is_empty (toUpperCase s) = is_empty s.
Proof. destruct s; reflexivity. Qed.

Lemma toUpperCase_app (a b : string) :
  toUpperCase (a ++ b) = toUpperCase a ++ toUpperCase b.
Proof. induction a as [|c a IH]; simpl; [reflexivity | now rewrite IH]. Qed.

Lemma toUpperCase_comma_free (s : string) :
  comma_free (toUpperCase s) = comma_free s.
Proof.
  induction s as [|c s IH]; simpl; [reflexivity|].
  now rewrite upper_ascii_comma, IH.
Qed.

Lemma split_not_nil (s : string) : split s <> [].
Proof.
  induction s as [|c s IH]; simpl; [discriminate|].
  destruct (Ascii.eqb c comma); [discriminate|].
  destruct (split s); discriminate.
Qed.

Lemma toUpperCase_split (s : string) :
  split (toUpperCase s) = map toUpperCase (split s).
Proof.
  induction s as [|c s IH]; simpl; [reflexivity|].
  rewrite upper_ascii_comma, IH.
  destruct (Ascii.eqb c comma); [reflexivity|].
  pose proof (split_not_nil s) as Hne.
  destruct (split s); [contradiction | reflexivity].
Qed.

Lemma toUpperCase_trimStart (s : string) :
  trimStart (toUpperCase s) = toUpperCase (trimStart s).
Proof.
  induction s as [|c s IH]; simpl; [reflexivity|].
  rewrite upper_ascii_white. destruct (is_white c); [exact IH | reflexivity].
Qed.

Lemma toUpperCase_trimEnd (s : string) :
  trimEnd (toUpperCase s) = toUpperCase (trimEnd s).
Proof.
  induction s as [|c s IH]; simpl; [reflexivity|].
  rewrite upper_ascii_white, IH, toUpperCase_is_empty.
  destruct (is_white c && is_empty (trimEnd s)); reflexivity.
Qed.

Lemma toUpperCase_trim (s : string) :
  trim (toUpperCase s) = toUpperCase (trim s).
Proof. unfold trim. now rewrite toUpperCase_trimStart, toUpperCase_trimEnd. Qed.

Lemma toUpperCase_join (sep : string) (l : list string) :
  toUpperCase (join sep l) = join (toUpperCase sep) (map toUpperCase l).
Proof.
  induction l as [|a l IH]; [reflexivity|].
  destruct l as [|b l]; [reflexivity|].
  change (join sep (a :: b :: l)) with (a ++ sep ++ join sep (b :: l)).
  rewrite !toUpperCase_app, IH. reflexivity.
Qed.

Lemma split_comma_free (a : string) : comma_free a = true -> split a = [a].
Proof.
  induction a as [|c a IH]; simpl; [reflexivity|].
  intros H. apply andb_true_iff in H as [Hc Ha].
  apply negb_true_iff in Hc. rewrite Hc, (IH Ha). reflexivity.
Qed.

Lemma split_app_comma (a s : string) :
  comma_free a = true -> split (a ++ "," ++ s) = a :: split s.
Proof.
  induction a as [|c a IH]; simpl; [reflexivity|].
  intros H. apply andb_true_iff in H as [Hc Ha].
  apply negb_true_iff in Hc. rewrite Hc.
  change (a ++ String "," s) with (a ++ "," ++ s).
  rewrite (IH Ha). reflexivity.
Qed.

(** Splitting at the commas undoes joining with commas, as long as no
    name has a comma of its own. *)
Lemma split_join (l : list string) :
  l <> [] -> forallb comma_free l = true -> split (join "," l) = l.
Proof.
  induction l as [|a l IH]; [congruence|].
  intros _ H. simpl in H. apply andb_true_iff in H as [Ha Hl].
  destruct l as [|b l].
  - simpl. now apply split_comma_free.
  - change (join "," (a :: b :: l)) with (a ++ "," ++ join "," (b :: l)).
    rewrite (split_app_comma _ _ Ha), IH; [reflexivity | discriminate | exact Hl].
Qed.

Lemma join_is_empty (l : list string) :
  l <> [] -> forallb truthy l = true -> is_empty (join "," l) = false.
Proof.
  destruct l as [|a l]; [congruence|].
  intros _ H. simpl in H. apply andb_true_iff in H as [Ha _].
  destruct a as [|c a]; [discriminate|].
  destruct l; reflexivity.
Qed.

Lemma includes_In (l : list string) (s : string) :
  includes l s = true <-> In s l.
Proof.
  unfold includes. rewrite existsb_exists. split.
  - intros [x [Hx He]]. apply String.eqb_eq in He. now subst.
  - intros H. exists s. split; [exact H | apply String.eqb_refl].
Qed.

End StringFacts.

(** ** Comparisons of numbers *)

Lemma Qc_eqb_eq (a b : Qc) : Qc_eqb a b = true <-> a = b.
Proof.
  unfold Qc_eqb. rewrite Qeq_bool_iff. split.
  - apply Qc_is_canon.
  - intros ->. reflexivity.
Qed.

Lemma Qc_eqb_neq (a b : Qc) : Qc_eqb a b = false <-> a <> b.
Proof.
  rewrite <- Qc_eqb_eq. destruct (Qc_eqb a b); split; congruence.
Qed.

Lemma Qc_leb_le (a b : Qc) : Qc_leb a b = true <-> a <= b.
Proof. unfold Qc_leb, Qcle. apply Qle_bool_iff. Qed.

Lemma Qc_ltb_lt (a b : Qc) : Qc_ltb a b = true <-> a < b.
Proof.
  unfold Qc_ltb, Qclt. rewrite negb_true_iff. split.
  - intros H. apply Qnot_le_lt. intros Hle.
    apply Qle_bool_iff in Hle. congruence.
  - intros H. destruct (Qle_bool b a) eqn:E; [|reflexivity].
    apply Qle_bool_iff in E. exfalso. exact (Qlt_not_le _ _ H E).
Qed.

Lemma Qc_ltb_irrefl (a : Qc) : Qc_ltb a a = false.
Proof.
  destruct (Qc_ltb a a) eqn:E; [|reflexivity].
  apply Qc_ltb_lt in E. exfalso. exact (Qlt_irrefl _ E).
Qed.

Lemma num_neq_0 (z : Z) : z <> 0%Z -> num z <> 0.
Proof.
  intros Hz H. unfold num in H. apply Q2Qc_eq_iff in H.
  apply Hz. unfold Qeq in H. simpl in H. lia.
Qed.

Lemma count_neq_0 {A} (l : list A) : l <> [] -> count l <> 0.
Proof.
  intros Hl. apply num_neq_0. destruct l; [congruence | simpl; lia].
Qed.

Lemma div_finite (a b : Qc) : b <> 0 -> JSNumber.div a b = Finite (a / b).
Proof.
  intros Hb. unfold JSNumber.div.
  apply Qc_eqb_neq in Hb. now rewrite Hb.
Qed.

(** ** Loops over the selection *)

Lemma mapM_length {A B} (f : A -> Res B) (l : list A) (l' : list B) :
  mapM f l = Ok l' -> List.length l' = List.length l.
Proof.
  revert l'. induction l as [|a l IH]; simpl; intros l' H.
  - now inversion H.
  - destruct (f a); [|discriminate]. simpl in H.
    destruct (mapM f l); [|discriminate]. simpl in H.
    inversion H. simpl. now rewrite (IH _ eq_refl).
Qed.

Section Loops.
Variable c : UIController.

(** A loop whose body reads [this.parties[index]] and then folds the
    party into the running totals is a fold over the selected parties. *)
Lemma foldM_parties {S} (step : S -> nat -> Res S) (g : S -> Party -> S) :
  (forall acc i, step acc i = let* p := party c i in Ok (g acc p)) ->
  forall sel ps acc,
    mapM (party c) sel = Ok ps ->
    foldM step sel acc = Ok (fold_left g ps acc).
Proof.
  intros Hstep. induction sel as [|i sel IH]; simpl; intros ps acc H.
  - now inversion H.
  - rewrite Hstep. destruct (party c i) as [p|]; [|discriminate].
    simpl in *. destruct (mapM (party c) sel) as [ps'|]; [|discriminate].
    simpl in H. inversion H. simpl. now apply IH.
Qed.

Lemma mapM_parties {B} (f : Party -> B) :
  forall sel ps,
    mapM (party c) sel = Ok ps ->
    mapM (fun i => let* p := party c i in Ok (f p)) sel = Ok (map f ps).
Proof.
  induction sel as [|i sel IH]; simpl; intros ps H.
  - now inversion H.
  - destruct (party c i) as [p|]; [|discriminate]. simpl in *.
    destruct (mapM (party c) sel) as [ps'|]; [|discriminate].
    simpl in H. inversion H. now rewrite (IH _ eq_refl).
Qed.

Lemma mapM_party_bounded :
  forall sel,
    (forall i, In i sel -> (i < List.length (parties c))%nat) ->
    exists ps, mapM (party c) sel = Ok ps.
Proof.
  induction sel as [|i sel IH]; simpl; intros H.
  - now exists [].
  - destruct IH as [ps Hps]; [intros; apply H; now right|].
    unfold party at 1.
    destruct (nth_error (parties c) i) as [p|] eqn:E.
    + exists (p :: ps). simpl. now rewrite Hps.
    + apply nth_error_None in E. specialize (H i (or_introl eq_refl)). lia.
Qed.
End Loops.

(** ** Running totals are sums *)

Lemma seatsBody_sum (ps : list Party) (a : Qc) :
  fold_left seatsBody ps a = a + sum (map (seatsOr 0) ps).
Proof.
  revert a. induction ps as [|p ps IH]; intros a; simpl.
  - ring.
  - rewrite IH. unfold seatsBody, seatsOr. ring.
Qed.

Lemma simpleBody_sum (ps : list Party) (a b : Qc) :
  fold_left simpleBody ps (a, b)
  = (a + sum (map posX ps), b + sum (map posY ps)).
Proof.
  revert a b. induction ps as [|p ps IH]; intros a b; simpl.
  - f_equal; ring.
  - rewrite IH. unfold posX, posY. f_equal; ring.
Qed.

Lemma weightedBody_sum (ps : list Party) (a b t : Qc) :
  fold_left weightedBody ps (a, b, t)
  = (a + sum (map (fun p => posX p * seatsOr 1 p) ps),
     b + sum (map (fun p => posY p * seatsOr 1 p) ps),
     t + sum (map (seatsOr 1) ps)).
Proof.
  revert a b t. induction ps as [|p ps IH]; intros a b t; simpl.
  - f_equal; [f_equal|]; ring.
  - rewrite IH. unfold posX, posY, seatsOr. f_equal; [f_equal|]; ring.
Qed.

Lemma statsBody_sum (weighted : bool) (ps : list Party) (a b t : Qc) :
  fold_left (statsBody weighted) ps (a, b, t)
  = (a + sum (map (fun p => horizontalSigned p * weight weighted p) ps),
     b + sum (map (fun p => verticalSigned p * weight weighted p) ps),
     t + sum (map (weight weighted) ps)).
Proof.
  revert a b t. induction ps as [|p ps IH]; intros a b t.
  - unfold sum. cbn [fold_left map fold_right]. f_equal; [f_equal|]; ring.
  - cbn [fold_left map]. unfold statsBody at 2.
    rewrite IH. unfold sum. cbn [fold_right]. f_equal; [f_equal|]; ring.
Qed.

Lemma selected_nonempty (c : UIController) (ps : list Party) :
  selected c = Ok ps -> ps <> [] ->
  (List.length (selectedParties c) =? 0)%nat = false.
Proof.
  intros H Hne. apply mapM_length in H. apply Nat.eqb_neq.
  destruct ps; [congruence | simpl in H; lia].
Qed.

Lemma selected_size (c : UIController) (ps : list Party) :
  selected c = Ok ps -> size c = count ps.
Proof. intros H. apply mapM_length in H. unfold size, count. now rewrite H. Qed.

Lemma selected_empty (c : UIController) :
  selectedParties c = [] -> selected c = Ok [].
Proof. unfold selected. now intros ->. Qed.

(** ** The seat total *)

Lemma totalSeats_selected (c : UIController) (ps : list Party) :
  selected c = Ok ps -> totalSeats c = Ok (sum (map (seatsOr 0) ps)).
Proof.
  intros H. unfold totalSeats.
  rewrite (foldM_parties c (seatsStep c) seatsBody (fun _ _ => eq_refl) _ _ _ H).
  rewrite seatsBody_sum. f_equal. ring.
Qed.

(** C8. For every selection, the seat total computed by [handlePartySelection]
    is the sum of the seats of the selected parties, a party without seat
    data counting 0; it is 0 for the empty selection. *)
Theorem totalSeats_sum (c : UIController) :
  (forall ps, selected c = Ok ps -> totalSeats c = Ok (sum (map (seatsOr 0) ps)))
  /\ (selectedParties c = [] -> totalSeats c = Ok 0).
Proof.
  split; [apply totalSeats_selected|].
  intros He. exact (totalSeats_selected c [] (selected_empty c He)).
Qed.

Lemma totalSeats_sum_witness :
  totalSeats (demo demoParties [true; false; true; false; true] false)
  = Ok (sum (map (seatsOr 0) [D66; PvdAGL; BIJ1]))
  /\ totalSeats (demo demoParties [false; false; false; false; false] false)
     = Ok 0.
Proof.
  split.
  - apply (proj1 (totalSeats_sum _)). reflexivity.
  - apply (proj2 (totalSeats_sum _)). reflexivity.
Defined.

(** ** The average position *)

(** The simple branch, before the two divisions. *)
Lemma calculateAverage_simple_sums (c : UIController) (ps : list Party) :
  selected c = Ok ps -> ps <> [] -> useWeighted c = false ->
  calculateAverage c
  = Ok (Some (Average.mk (JSNumber.div (sum (map posX ps)) (count ps))
                         (JSNumber.div (sum (map posY ps)) (count ps)))).
Proof.
  intros Hsel Hne Hw. unfold calculateAverage.
  rewrite (selected_nonempty c ps Hsel Hne), Hw.
  rewrite (foldM_parties c (simpleStep c) simpleBody (fun _ _ => eq_refl) _ _ _ Hsel).
  rewrite simpleBody_sum. simpl.
  rewrite (selected_size c ps Hsel), !Qcplus_0_l.
  reflexivity.
Qed.



(** The weighted branch, before the choice of the divisor. *)
Lemma calculateAverage_weighted_sums (c : UIController) (ps : list Party) :
  selected c = Ok ps -> ps <> [] -> useWeighted c = true ->
  let sumX := sum (map (fun p => posX p * seatsOr 1 p) ps) in
  let sumY := sum (map (fun p => posY p * seatsOr 1 p) ps) in
  let total := sum (map (seatsOr 1) ps) in
  calculateAverage c
  = Ok (Some (Average.mk
      (if Qc_ltb 0 total then JSNumber.div sumX total
       else JSNumber.div sumX (count ps))
      (if Qc_ltb 0 total then JSNumber.div sumY total
       else JSNumber.div sumY (count ps)))).
Proof.
  intros Hsel Hne Hw. unfold calculateAverage.
  rewrite (selected_nonempty c ps Hsel Hne), Hw.
  rewrite (foldM_parties c (weightedStep c) weightedBody (fun _ _ => eq_refl) _ _ _ Hsel).
  rewrite weightedBody_sum. simpl.
  rewrite (selected_size c ps Hsel), !Qcplus_0_l. reflexivity.
Qed.

Lemma calculateAverage_weighted_pos (c : UIController) (ps : list Party) :
  selected c = Ok ps -> ps <> [] -> useWeighted c = true ->
  0 < sum (map (seatsOr 1) ps) ->
  calculateAverage c
  = Ok (Some (Average.mk (Finite (weightedMean (seatsOr 1) posX ps))
                         (Finite (weightedMean (seatsOr 1) posY ps)))).
Proof.
  intros Hsel Hne Hw Hpos.
  rewrite (calculateAverage_weighted_sums c ps Hsel Hne Hw). cbv zeta.
  pose proof (proj2 (Qc_ltb_lt _ _) Hpos) as Hlt. rewrite Hlt.
  assert (Hn : sum (map (seatsOr 1) ps) <> 0).
  { intros E. rewrite E in Hpos. exact (Qlt_irrefl _ Hpos). }
  rewrite !div_finite by exact Hn. reflexivity.
Qed.

(** *** The weighted centroid *)




(** C5. With the weighting on and a total weight of 0 over a non-empty
    selection, [calculateAverage] divides the weighted sums by the number of
    selected parties; the result is a finite number. *)
Theorem calculateAverage_zero_weight (c : UIController) (ps : list Party)
    (Hsel : selected c = Ok ps) (Hne : ps <> [])
    (Hw : useWeighted c = true)
    (Hzero : sum (map (seatsOr 1) ps) = 0) :
  calculateAverage c
  = Ok (Some (Average.mk
      (Finite (sum (map (fun p => posX p * seatsOr 1 p) ps) / count ps))
      (Finite (sum (map (fun p => posY p * seatsOr 1 p) ps) / count ps)))).
Proof.
  rewrite (calculateAverage_weighted_sums c ps Hsel Hne Hw). cbv zeta.
  (* the guard [totalSeats > 0] fails on a total of 0 *)
  rewrite Hzero, Qc_ltb_irrefl.
  (* the other divisor is the size of a non-empty set *)
  assert (Hcount : count ps <> 0) by (now apply count_neq_0).
  rewrite !div_finite by exact Hcount.
  reflexivity.
Qed.

Lemma calculateAverage_zero_weight_witness :
  calculateAverage (demo demoParties [false; false; false; true; false] true)
  = Ok (Some (Average.mk
      (Finite (sum (map (fun p => posX p * seatsOr 1 p) [NSC]) / count [NSC]))
      (Finite (sum (map (fun p => posY p * seatsOr 1 p) [NSC]) / count [NSC])))).
Proof.
  apply (calculateAverage_zero_weight
           (demo demoParties [false; false; false; true; false] true) [NSC]).
  - reflexivity.
  - discriminate.
  - reflexivity.
  - js_eq.
Defined.

(** *** Seat counts that are all zero *)

Lemma sum_nonneg (l : list Qc) : (forall q, In q l -> 0 <= q) -> 0 <= sum l.
Proof.
  induction l as [|a l IH]; intros H.
  - apply Qcle_refl.
  - unfold sum in *. cbn [fold_right].
    rewrite <- (Qcplus_0_l 0) at 1.
    apply Qcplus_le_compat; [apply H; now left | apply IH].
    intros q Hq. apply H. now right.
Qed.

Lemma sum_nonneg_zero (l : list Qc) :
  (forall q, In q l -> 0 <= q) -> sum l = 0 -> forall q, In q l -> q = 0.
Proof.
  induction l as [|a l IH]; intros Hge Hz q Hq; [destruct Hq|].
  assert (Hl : forall r, In r l -> 0 <= r) by (intros r Hr; apply Hge; now right).
  assert (Ha : 0 <= a) by (apply Hge; now left).
  pose proof (sum_nonneg l Hl) as Hs.
  change (sum (a :: l)) with (a + sum l) in Hz.
  assert (Ha0 : a = 0).
  { apply Qcle_antisym; [|exact Ha].
    rewrite <- Hz. rewrite <- (Qcplus_0_r a) at 1.
    apply Qcplus_le_compat; [apply Qcle_refl | exact Hs]. }
  destruct Hq as [<-|Hq]; [exact Ha0|].
  apply (IH Hl); [|exact Hq].
  rewrite Ha0, Qcplus_0_l in Hz. exact Hz.
Qed.

Lemma sum_map_zero {A} (f : A -> Qc) (l : list A) :
  (forall a, In a l -> f a = 0) -> sum (map f l) = 0.
Proof.
  induction l as [|a l IH]; intros H; [reflexivity|].
  change (sum (map f (a :: l))) with (f a + sum (map f l)).
  rewrite (H a (or_introl eq_refl)), IH; [ring|].
  intros b Hb. apply H. now right.
Qed.

Lemma seatsOr_hasSeats (d e : Qc) (p : Party) :
  hasSeats p = true -> seatsOr d p = seatsOr e p.
Proof.
  unfold hasSeats, seatsOr. destruct (electionResults2025 p); [reflexivity | discriminate].
Qed.

(** C10. With the weighting on, if every party of a non-empty selection has
    seat data and the seat counts (which are not negative) sum to 0, then
    [calculateAverage] returns the point (0, 0); this is not the arithmetic
    mean of the positions unless that mean is (0, 0) itself. *)
Theorem calculateAverage_all_zero_seats (c : UIController) (ps : list Party)
    (Hsel : selected c = Ok ps) (Hne : ps <> [])
    (Hw : useWeighted c = true)
    (Hdata : forallb hasSeats ps = true)
    (Hnonneg : forall p, In p ps -> 0 <= seatsOr 0 p)
    (Hzero : sum (map (seatsOr 0) ps) = 0) :
  calculateAverage c = Ok (Some (Average.mk (Finite 0) (Finite 0)))
  /\ (mean posX ps <> 0 \/ mean posY ps <> 0 ->
      calculateAverage c
      <> Ok (Some (Average.mk (Finite (mean posX ps)) (Finite (mean posY ps))))).
Proof.
  assert (Hall : forall p, In p ps -> seatsOr 1 p = 0).
  { intros p Hp. rewrite forallb_forall in Hdata.
    rewrite (seatsOr_hasSeats 1 0 p (Hdata p Hp)).
    apply (sum_nonneg_zero (map (seatsOr 0) ps)); [|exact Hzero|].
    - intros q Hq. apply in_map_iff in Hq as [p' [<- Hp']]. now apply Hnonneg.
    - now apply in_map. }
  assert (G : calculateAverage c = Ok (Some (Average.mk (Finite 0) (Finite 0)))).
  { rewrite (calculateAverage_weighted_sums c ps Hsel Hne Hw). cbv zeta.
    rewrite (sum_map_zero (seatsOr 1) ps Hall), Qc_ltb_irrefl.
    rewrite !sum_map_zero.
    - rewrite !div_finite by (now apply count_neq_0).
      unfold Qcdiv. now rewrite Qcmult_0_l.
    - intros p Hp. rewrite (Hall p Hp). ring.
    - intros p Hp. rewrite (Hall p Hp). ring. }
  split; [exact G|].
  intros Hm E. rewrite G in E. inversion E as [[Ex Ey]].
  destruct Hm as [Hm|Hm]; apply Hm; congruence.
Qed.

Lemma calculateAverage_all_zero_seats_witness :
  calculateAverage (demo demoParties [false; false; false; true; false] true)
  = Ok (Some (Average.mk (Finite 0) (Finite 0)))
  /\ calculateAverage (demo demoParties [false; false; false; true; false] true)
     <> Ok (Some (Average.mk (Finite (mean posX [NSC])) (Finite (mean posY [NSC])))).
Proof.
  pose proof (calculateAverage_all_zero_seats
                (demo demoParties [false; false; false; true; false] true)
                [NSC] eq_refl) as H.
  destruct H as [H1 H2].
  - discriminate.
  - reflexivity.
  - reflexivity.
  - intros p [<-|[]]. vm_compute. discriminate.
  - js_eq.
  - split; [exact H1|]. apply H2. left.
    intros E. vm_compute in E. discriminate E.
Defined.

(** *** The empty selection *)

Lemma calculateAverage_empty (c : UIController) :
  selectedParties c = [] -> calculateAverage c = Ok None.
Proof. intros E. unfold calculateAverage. now rewrite E. Qed.

(** C7. [calculateAverage] returns [null] exactly when the selection is
    empty, whatever the weighting switch says, and [updateCompassMarker]
    then leaves the diagram without a marker. *)
Theorem calculateAverage_null (c : UIController) :
  (calculateAverage c = Ok None <-> selectedParties c = [])
  /\ (selectedParties c = [] ->
      exists c', updateCompassMarker c = Ok c' /\ marker c' = None).
Proof.
  split; [split; [|apply calculateAverage_empty]|].
  - unfold calculateAverage.
    destruct (selectedParties c) as [|i sel] eqn:E; [reflexivity|].
    cbn [List.length Nat.eqb].
    destruct (useWeighted c).
    + destruct (foldM _ _ _) as [[[sx sy] t]|]; discriminate.
    + destruct (foldM _ _ _) as [[sx sy]|]; discriminate.
  - intros E. unfold updateCompassMarker, marker.
    destruct (svgDisplay c) as [svg|] eqn:Es.
    + unfold calculateAverage. cbn [selectedParties set_svgDisplay].
      rewrite E. cbn. eexists. split; reflexivity.
    + exists c. split; [reflexivity | now rewrite Es].
Qed.

Lemma calculateAverage_null_witness :
  calculateAverage (demo demoParties [false; false; false; false; false] true)
  = Ok None
  /\ exists c',
      updateCompassMarker
        (set_svgDisplay
           (Some (Svg.mk true (Some (Marker.mk (Finite (num 50)) (Finite (num 35))))))
           (demo demoParties [false; false; false; false; false] false))
      = Ok c'
      /\ marker c' = None.
Proof.
  split.
  - apply (proj1 (calculateAverage_null _)). reflexivity.
  - apply (proj2 (calculateAverage_null _)). reflexivity.
Defined.

(** ** The signed averages of the coalition statistics *)

Lemma num_S (n : nat) : num (Z.of_nat (S n)) = 1 + num (Z.of_nat n).
Proof.
  unfold num. apply Qc_is_canon. unfold Qcplus, Q2Qc. cbn [this].
  rewrite !Qred_correct. rewrite Nat2Z.inj_succ.
  unfold Z.succ. rewrite inject_Z_plus. ring.
Qed.

Lemma sum_ones {A} (l : list A) : sum (map (fun _ => 1) l) = count l.
Proof.
  induction l as [|a l IH]; [apply Qc_is_canon; reflexivity|].
  unfold count in *. cbn [List.length]. rewrite num_S, <- IH. reflexivity.
Qed.

Lemma weightedMean_ones (f : Party -> Qc) (ps : list Party) :
  weightedMean (fun _ => 1) f ps = mean f ps.
Proof.
  unfold weightedMean, mean. rewrite sum_ones. f_equal. f_equal.
  apply map_ext. intros p. ring.
Qed.

Lemma relabel_finite (positive negative : string) (m : Qc) :
  relabel positive negative (Finite m) = display positive negative m.
Proof.
  unfold relabel, display, JSNumber.abs, JSNumber.ge0.
  destruct (Qc_leb 0 m); reflexivity.
Qed.

(** The loop of [updateCoalitionStats], before the two divisions. *)
Lemma updateCoalitionStats_sums (total : Qc) (c : UIController)
    (ps : list Party) :
  selected c = Ok ps -> ps <> [] ->
  let w := weight (useWeighted c) in
  updateCoalitionStats total c
  = Ok (set_coalitionStats DisplayInlineBlock
          (set_coalitionStatsContent
             (CoalitionStats.mk total
                (relabel "rechts" "links"
                   (JSNumber.div (sum (map (fun p => horizontalSigned p * w p) ps))
                                 (sum (map w ps))))
                (relabel "conservatief" "progressief"
                   (JSNumber.div (sum (map (fun p => verticalSigned p * w p) ps))
                                 (sum (map w ps)))))
             c)).
Proof.
  intros Hsel Hne. unfold updateCoalitionStats.
  rewrite (selected_nonempty c ps Hsel Hne).
  rewrite (foldM_parties c (statsStep c) (statsBody (useWeighted c))
             (fun _ _ => eq_refl) _ _ _ Hsel).
  rewrite statsBody_sum. cbn [bind]. rewrite !Qcplus_0_l. reflexivity.
Qed.

Lemma updateCoalitionStats_mean (total : Qc) (c : UIController)
    (ps : list Party) :
  selected c = Ok ps -> ps <> [] ->
  (useWeighted c = true -> sum (map (seatsOr 1) ps) <> 0) ->
  updateCoalitionStats total c
  = Ok (set_coalitionStats DisplayInlineBlock
          (set_coalitionStatsContent
             (CoalitionStats.mk total
                (display "rechts" "links"
                   (signedAverage (useWeighted c) horizontalSigned ps))
                (display "conservatief" "progressief"
                   (signedAverage (useWeighted c) verticalSigned ps)))
             c)).
Proof.
  intros Hsel Hne Hw.
  rewrite (updateCoalitionStats_sums total c ps Hsel Hne). cbv zeta.
  unfold signedAverage. destruct (useWeighted c).
  - change (weight true) with (seatsOr 1).
    rewrite !div_finite by (now apply Hw). now rewrite !relabel_finite.
  - change (weight false) with (fun _ : Party => 1).
    rewrite <- !weightedMean_ones. unfold weightedMean.
    rewrite !div_finite
      by (rewrite sum_ones; now apply count_neq_0).
    now rewrite !relabel_finite.
Qed.

Lemma signed_positive (positive : string) (v : Qc) :
  signed positive (Some (Axis.mk v positive)) = v.
Proof. unfold signed. simpl. now rewrite String.eqb_refl. Qed.

Lemma signed_negative (positive d : string) (v : Qc) :
  d <> positive -> signed positive (Some (Axis.mk v d)) = - v.
Proof.
  intros H. unfold signed. simpl.
  apply String.eqb_neq in H. now rewrite H.
Qed.

Lemma signed_missing (positive : string) : signed positive None = 0.
Proof. unfold signed. ring. Qed.

Lemma display_sign (positive negative : string) (m : Qc) :
  (0 <= m -> display positive negative m = AxisStat.mk (Finite m) positive)
  /\ (m < 0 -> display positive negative m = AxisStat.mk (Finite (- m)) negative).
Proof.
  unfold display. split; intros H.
  - apply Qc_leb_le in H. now rewrite H.
  - destruct (Qc_leb 0 m) eqn:E; [|reflexivity].
    apply Qc_leb_le in E. exfalso. exact (Qlt_not_le _ _ H E).
Qed.

Lemma relabel_sign (positive negative : string) (m : Qc) :
  (0 <= m ->
   relabel positive negative (Finite m) = AxisStat.mk (Finite m) positive)
  /\ (m < 0 ->
      relabel positive negative (Finite m) = AxisStat.mk (Finite (- m)) negative).
Proof. rewrite relabel_finite. apply display_sign. Qed.

Lemma unweighted_quotient (f : Party -> Qc) (ps : list Party) :
  ps <> [] ->
  JSNumber.div (sum (map (fun p => f p * weight false p) ps))
               (sum (map (weight false) ps))
  = Finite (mean f ps).
Proof.
  intros Hne. change (weight false) with (fun _ : Party => 1).
  rewrite <- weightedMean_ones. unfold weightedMean.
  apply div_finite. rewrite sum_ones. now apply count_neq_0.
Qed.

(** C3. Each axis value becomes a signed number: on the horizontal axis
    "rechts" counts positive and "links" negative, on the vertical axis
    "conservatief" positive and "progressief" negative, and a missing axis
    counts 0.  For every non-empty selection [updateCoalitionStats] divides
    the weighted sum of the signed numbers by the total weight (the weight is
    the seat count, or 1 without seat data or with the weighting off, so
    that with the weighting off the quotient is the plain mean) and shows
    the absolute value of the quotient with the label of its sign.  For A at
    40% rechts and B at 20% links with 10 seats each, the weighted mean is
    10, shown as "10.0% rechts". *)
Theorem updateCoalitionStats_signed_average :
  (forall p v,
      (PoliticalPosition.horizontal (politicalPosition p)
         = Some (Axis.mk v "rechts") -> horizontalSigned p = v)
      /\ (PoliticalPosition.horizontal (politicalPosition p)
            = Some (Axis.mk v "links") -> horizontalSigned p = - v)
      /\ (PoliticalPosition.vertical (politicalPosition p)
            = Some (Axis.mk v "conservatief") -> verticalSigned p = v)
      /\ (PoliticalPosition.vertical (politicalPosition p)
            = Some (Axis.mk v "progressief") -> verticalSigned p = - v))
  /\ (forall p,
        (PoliticalPosition.horizontal (politicalPosition p) = None ->
         horizontalSigned p = 0)
        /\ (PoliticalPosition.vertical (politicalPosition p) = None ->
            verticalSigned p = 0))
  /\ (forall total c ps,
        selected c = Ok ps -> ps <> [] ->
        updateCoalitionStats total c
        = Ok (set_coalitionStats DisplayInlineBlock
                (set_coalitionStatsContent
                   (CoalitionStats.mk total
                      (relabel "rechts" "links"
                         (JSNumber.div
                            (sum (map (fun p => horizontalSigned p
                                                * weight (useWeighted c) p) ps))
                            (sum (map (weight (useWeighted c)) ps))))
                      (relabel "conservatief" "progressief"
                         (JSNumber.div
                            (sum (map (fun p => verticalSigned p
                                                * weight (useWeighted c) p) ps))
                            (sum (map (weight (useWeighted c)) ps)))))
                   c)))
  /\ (forall p, weight true p = seatsOr 1 p /\ weight false p = 1)
  /\ (forall f ps, ps <> [] ->
        JSNumber.div (sum (map (fun p => f p * weight false p) ps))
                     (sum (map (weight false) ps))
        = Finite (mean f ps))
  /\ (forall positive negative avg,
        AxisStat.value (relabel positive negative avg) = JSNumber.abs avg
        /\ AxisStat.label (relabel positive negative avg)
           = if JSNumber.ge0 avg then positive else negative)
  /\ (forall positive negative m,
        (0 <= m ->
         relabel positive negative (Finite m)
         = AxisStat.mk (Finite m) positive)
        /\ (m < 0 ->
            relabel positive negative (Finite m)
            = AxisStat.mk (Finite (- m)) negative))
  /\ (horizontalSigned partyA = num 40
      /\ horizontalSigned partyB = - num 20
      /\ signedAverage true horizontalSigned [partyA; partyB] = num 10
      /\ option_map (fun s => AxisStat.render (CoalitionStats.horizontal s))
           (statsOf (handlePartySelection
                       (page [partyA; partyB] [true; true] true [])))
         = Some "10.0% rechts").
Proof.
  refine (conj _ (conj _ (conj _ (conj _ (conj _ (conj _ (conj _ _))))))).
  - intros p v. unfold horizontalSigned, verticalSigned.
    repeat split; intros ->.
    + apply signed_positive.
    + now apply signed_negative.
    + apply signed_positive.
    + now apply signed_negative.
  - intros p. unfold horizontalSigned, verticalSigned.
    split; intros ->; apply signed_missing.
  - intros total c ps Hsel Hne.
    exact (updateCoalitionStats_sums total c ps Hsel Hne).
  - intros p. split; reflexivity.
  - apply unweighted_quotient.
  - intros positive negative avg. split; reflexivity.
  - apply relabel_sign.
  - refine (conj _ (conj _ (conj _ _))).
    + js_eq.
    + js_eq.
    + js_eq.
    + vm_compute. reflexivity.
Qed.

(** NSC alone with the weighting on (the total weight is 0), the signed
    value of VVD, and a missing axis. *)
Lemma updateCoalitionStats_signed_average_witness :
  updateCoalitionStats 0
    (demo demoParties [false; false; false; true; false] true)
  = Ok (set_coalitionStats DisplayInlineBlock
          (set_coalitionStatsContent
             (CoalitionStats.mk 0
                (relabel "rechts" "links"
                   (JSNumber.div
                      (sum (map (fun p => horizontalSigned p * weight true p) [NSC]))
                      (sum (map (weight true) [NSC]))))
                (relabel "conservatief" "progressief"
                   (JSNumber.div
                      (sum (map (fun p => verticalSigned p * weight true p) [NSC]))
                      (sum (map (weight true) [NSC])))))
             (demo demoParties [false; false; false; true; false] true)))
  /\ horizontalSigned VVD = num 40
  /\ verticalSigned BIJ1 = 0.
Proof.
  refine (conj _ (conj _ _)).
  - apply (proj1 (proj2 (proj2 updateCoalitionStats_signed_average))
             0 (demo demoParties [false; false; false; true; false] true)
             [NSC]).
    + reflexivity.
    + discriminate.
  - apply (proj1 (proj1 updateCoalitionStats_signed_average VVD (num 40))).
    reflexivity.
  - apply (proj2 (proj1 (proj2 updateCoalitionStats_signed_average) BIJ1)).
    reflexivity.
Defined.

(** C6, at the failing input.  Only NSC is selected, which has seat data
    with 0 seats, and the weighting is on: the total weight is 0,
    [updateCoalitionStats] divides 0 by 0, and both axes show [NaN] with the
    label of the negative direction.  [calculateAverage], which has a guard
    for a total of 0, returns a finite point on the same page. *)
Theorem updateCoalitionStats_zero_weight_NaN :
  let c := page demoParties [false; false; false; true; false] true [] in
  selectionOf (handlePartySelection c) = Some [3%nat]
  /\ statsOf (handlePartySelection c)
     = Some (CoalitionStats.mk 0 (AxisStat.mk NaN "links")
                                 (AxisStat.mk NaN "progressief"))
  /\ option_map (fun s => (AxisStat.render (CoalitionStats.horizontal s),
                           AxisStat.render (CoalitionStats.vertical s)))
       (statsOf (handlePartySelection c))
     = Some ("NaN% links", "NaN% progressief")
  /\ calculateAverage (demo demoParties [false; false; false; true; false] true)
     = Ok (Some (Average.mk (Finite 0) (Finite 0))).
Proof.
  cbv zeta. refine (conj _ (conj _ (conj _ _))).
  - vm_compute. reflexivity.
  - js_eq.
  - vm_compute. reflexivity.
  - js_eq.
Qed.

(** ** The query string *)

Section QueryFacts.
Import URLSearchParams.

Lemma get_delete (p : t) (k : string) : get (delete p k) k = None.
Proof.
  induction p as [|[k' v'] p IH]; simpl; [reflexivity|].
  destruct (String.eqb k' k) eqn:E; simpl; [exact IH|].
  now rewrite E.
Qed.

Lemma has_delete (p : t) (k : string) : has (delete p k) k = false.
Proof.
  induction p as [|[k' v'] p IH]; simpl; [reflexivity|].
  destruct (String.eqb k' k) eqn:E; simpl; [exact IH|].
  now rewrite E.
Qed.

Lemma get_set (p : t) (k v : string) : get (set p k v) k = Some v.
Proof.
  induction p as [|[k' v'] p IH]; simpl.
  - now rewrite String.eqb_refl.
  - destruct (String.eqb k' k) eqn:E; simpl.
    + now rewrite String.eqb_refl.
    + now rewrite E.
Qed.

Lemma has_set (p : t) (k v : string) : has (set p k v) k = true.
Proof.
  induction p as [|[k' v'] p IH]; simpl.
  - now rewrite String.eqb_refl.
  - destruct (String.eqb k' k) eqn:E; simpl.
    + now rewrite String.eqb_refl.
    + now rewrite E.
Qed.
End QueryFacts.

Lemma updateQueryParams_empty (c : UIController) :
  URLSearchParams.has (location (updateQueryParams [] c)) "parties" = false
  /\ URLSearchParams.get (location (updateQueryParams [] c)) "parties" = None.
Proof.
  unfold updateQueryParams. simpl. split; [apply has_delete | apply get_delete].
Qed.

Lemma updateQueryParams_nonempty (names : list string) (c : UIController) :
  names <> [] ->
  URLSearchParams.get (location (updateQueryParams names c)) "parties"
  = Some (JSString.join "," names).
Proof.
  intros H. unfold updateQueryParams.
  destruct names as [|a l]; [congruence|].
  cbn [List.length Nat.eqb location set_location]. apply get_set.
Qed.

(** ** One round of [handlePartySelection] *)

Lemma checkedFrom_In (checkboxes : list bool) (k i : nat) :
  In i (checkedFrom k checkboxes)
  <-> (k <= i)%nat /\ nth_error checkboxes (i - k) = Some true.
Proof.
  revert k. induction checkboxes as [|b cb IH]; intros k; simpl.
  - split; [intros [] | intros [_ H]]. destruct (i - k)%nat; discriminate.
  - assert (G : In i (checkedFrom (S k) cb)
                <-> (k <= i)%nat /\ i <> k
                    /\ nth_error (b :: cb) (i - k) = Some true).
    { rewrite IH. split.
      - intros [Hle Hn]. repeat split; try lia.
        replace (i - k)%nat with (S (i - S k)) by lia. exact Hn.
      - intros [Hle [Hne Hn]]. split; [lia|].
        replace (i - k)%nat with (S (i - S k)) in Hn by lia. exact Hn. }
    destruct b; simpl; rewrite G.
    + split.
      * intros [<-|[Hle [Hne Hn]]]; [|tauto].
        split; [lia|]. now rewrite Nat.sub_diag.
      * intros [Hle Hn]. destruct (Nat.eq_dec i k) as [->|Hne]; [now left|].
        right. tauto.
    + split; [tauto|]. intros [Hle Hn]. repeat split; trivial.
      intros ->. rewrite Nat.sub_diag in Hn. discriminate.
Qed.

Lemma checkedFrom_bounded (c : UIController) :
  (List.length (partyPicker c) <= List.length (parties c))%nat ->
  forall i, In i (checkedFrom 0 (partyPicker c)) ->
            (i < List.length (parties c))%nat.
Proof.
  intros Hlen i Hi. apply checkedFrom_In in Hi as [_ Hi].
  rewrite Nat.sub_0_r in Hi.
  assert (i < List.length (partyPicker c))%nat
    by (apply nth_error_Some; congruence).
  lia.
Qed.

Lemma selected_fields (c c' : UIController) :
  parties c' = parties c -> selectedParties c' = selectedParties c ->
  selected c' = selected c.
Proof.
  destruct c, c'. simpl. intros -> ->. reflexivity.
Qed.

Lemma calculateAverage_ok (c : UIController) (ps : list Party) :
  selected c = Ok ps -> exists a, calculateAverage c = Ok a.
Proof.
  intros Hsel. destruct ps as [|p ps].
  - exists None. apply calculateAverage_empty.
    apply mapM_length in Hsel. destruct (selectedParties c); [reflexivity|].
    discriminate.
  - destruct (useWeighted c) eqn:Hw.
    + eexists. apply (calculateAverage_weighted_sums c (p :: ps)); trivial.
      discriminate.
    + eexists. apply (calculateAverage_simple_sums c (p :: ps)); trivial.
      discriminate.
Qed.

Lemma updateCompassMarker_fields (c : UIController) (ps : list Party) :
  selected c = Ok ps ->
  exists c',
    updateCompassMarker c = Ok c'
    /\ parties c' = parties c
    /\ selectedParties c' = selectedParties c
    /\ partyPicker c' = partyPicker c
    /\ location c' = location c
    /\ coalitionStatsContent c' = coalitionStatsContent c.
Proof.
  intros Hsel. unfold updateCompassMarker.
  destruct (svgDisplay c) as [svg|]; [|exists c; tauto].
  destruct (calculateAverage_ok c ps Hsel) as [a Ha].
  change (calculateAverage (set_svgDisplay (Some (Svg.mk (Svg.compass svg) None)) c))
    with (calculateAverage c).
  rewrite Ha. cbn [bind].
  destruct a as [a|]; [|eexists; split; [reflexivity | tauto]].
  destruct (negb _); eexists; (split; [reflexivity | tauto]).
Qed.

(** With no more boxes than parties, [handlePartySelection] goes through:
    the set holds the indices of the checked boxes, and the query string is
    brought in line with the short names of the selected parties. *)
Lemma handlePartySelection_fields (c : UIController) :
  (List.length (partyPicker c) <= List.length (parties c))%nat ->
  exists c' ps,
    handlePartySelection c = Ok c'
    /\ selectedParties c' = checkedFrom 0 (partyPicker c)
    /\ parties c' = parties c
    /\ partyPicker c' = partyPicker c
    /\ selected c' = Ok ps
    /\ location c' = location (updateQueryParams (map shortName ps) c).
Proof.
  intros Hlen.
  destruct (mapM_party_bounded c _ (checkedFrom_bounded c Hlen)) as [ps Hps].
  set (c1 := set_selectedParties (checkedFrom 0 (partyPicker c)) c).
  assert (Hsel1 : selected c1 = Ok ps) by exact Hps.
  unfold handlePartySelection. fold c1.
  destruct (List.length (selectedParties c1) =? 0)%nat eqn:E.
  - assert (Hps0 : ps = []).
    { apply mapM_length in Hsel1. apply Nat.eqb_eq in E.
      rewrite E in Hsel1. destruct ps; [reflexivity | discriminate]. }
    subst ps. cbn [bind fst snd].
    set (c2 := updateQueryParams [] _).
    destruct (updateCompassMarker_fields c2 [] Hsel1)
      as [c' [H1 [H2 [H3 [H4 [H5 _]]]]]].
    exists c', []. rewrite H1, H2, H3, H4, H5.
    repeat split; try reflexivity.
    rewrite (selected_fields c1 c' H2 H3). exact Hsel1.
  - assert (Hne : ps <> []).
    { apply mapM_length in Hsel1. apply Nat.eqb_neq in E.
      destruct ps; [symmetry in Hsel1; contradiction | discriminate]. }
    unfold selectedShortNamesArray.
    rewrite (mapM_parties c1 shortName _ _ Hsel1). cbn [bind].
    rewrite (totalSeats_selected c1 ps Hsel1). cbn [bind].
    set (c2 := set_selectedCount _ c1).
    assert (Hsel2 : selected c2 = Ok ps) by exact Hsel1.
    rewrite (updateCoalitionStats_sums _ c2 ps Hsel2 Hne).
    cbv zeta. cbn [bind fst snd].
    set (c3 := updateQueryParams _ _).
    destruct (updateCompassMarker_fields c3 ps Hsel1)
      as [c' [H1 [H2 [H3 [H4 [H5 _]]]]]].
    exists c', ps. rewrite H1, H2, H3, H4, H5.
    repeat split; try reflexivity.
    rewrite (selected_fields c1 c' H2 H3). exact Hsel1.
Qed.



Example updateQueryParams_ex :
  location (updateQueryParams []
              (page demoParties [] true [("parties", "D66"); ("lang", "nl")]))
  = [("lang", "nl")]
  /\ location (updateQueryParams ["D66"; "BIJ1"]
                 (page demoParties [] true [("lang", "nl")]))
     = [("lang", "nl"); ("parties", "D66,BIJ1")].
Proof. split; reflexivity. Qed.

(** ** The selection through the query string and back *)

(** The methods on ASCII text keep the laws. *)
Lemma asciiStrings_laws : StringPrototypeLaws asciiStrings.
Proof.
  split; intros s; cbn [toUpperCase trim asciiStrings].
  - apply toUpperCase_split.
  - symmetry. apply toUpperCase_trim.
  - apply toUpperCase_is_empty.
Qed.

(** The parties that the indices of the checked boxes stand for are the
    parties paired with a checked box. *)
Lemma mapM_checkedFrom (c : UIController) (checkboxes : list bool) :
  forall pre rest,
    parties c = (pre ++ rest)%list ->
    (List.length checkboxes <= List.length rest)%nat ->
    mapM (party c) (checkedFrom (List.length pre) checkboxes)
    = Ok (checkedParties rest checkboxes).
Proof.
  induction checkboxes as [|b cb IH]; intros pre rest Ht Hlen.
  - destruct rest; reflexivity.
  - destruct rest as [|q rest]; [simpl in Hlen; lia|].
    assert (Hq : party c (List.length pre) = Ok q).
    { unfold party. rewrite Ht, nth_error_app2, Nat.sub_diag by lia.
      reflexivity. }
    assert (Hrec : mapM (party c) (checkedFrom (S (List.length pre)) cb)
                   = Ok (checkedParties rest cb)).
    { specialize (IH (pre ++ [q])%list rest).
      rewrite length_app, Nat.add_1_r in IH. apply IH.
      - now rewrite <- app_assoc.
      - simpl in Hlen. lia. }
    cbn [checkedFrom]. unfold checkedParties in *. cbn [combine filter].
    destruct b; cbn [snd fst map filter mapM].
    + now rewrite Hq, Hrec.
    + exact Hrec.
Qed.

Lemma checked_parties (c : UIController) (ps : list Party) :
  (List.length (partyPicker c) <= List.length (parties c))%nat ->
  mapM (party c) (checkedFrom 0 (partyPicker c)) = Ok ps ->
  ps = checkedParties (parties c) (partyPicker c).
Proof.
  intros Hlen Hps.
  pose proof (mapM_checkedFrom c (partyPicker c) [] (parties c) eq_refl Hlen)
    as H.
  cbn [List.length] in H. congruence.
Qed.

Lemma mapM_party_table (c c' : UIController) (sel : list nat) :
  parties c' = parties c -> mapM (party c') sel = mapM (party c) sel.
Proof.
  intros H. induction sel as [|i sel IH]; [reflexivity|].
  cbn [mapM]. unfold party at 1 3. now rewrite H, IH.
Qed.

Section RoundTrip.
Context {sp : StringPrototype} {laws : StringPrototypeLaws sp}.

(** What [getQueryParties] reads from a parameter that is, up to letter
    case, the comma-joined list of names that are free of commas and have
    no outer white space. *)
Lemma query_names (names : list string) (u : string) :
  forallb (fun n => JSString.comma_free n && String.eqb (trim n) n) names
  = true ->
  JSString.truthy (JSString.join "," names) = true ->
  toUpperCase u = toUpperCase (JSString.join "," names) ->
  JSString.truthy u = true
  /\ map (fun p => toUpperCase (trim p)) (JSString.split u)
     = map toUpperCase names.
Proof.
  intros Hok Htruthy Hu.
  assert (Hne : names <> []) by (intros ->; discriminate).
  assert (Hall : forall s, In s names ->
            JSString.comma_free s = true /\ trim s = s).
  { intros s Hs. rewrite forallb_forall in Hok. specialize (Hok s Hs).
    apply andb_true_iff in Hok as [Hc Ht]. apply String.eqb_eq in Ht.
    now split. }
  split.
  - unfold JSString.truthy in *.
    now rewrite <- toUpperCase_empty, Hu, toUpperCase_empty.
  - rewrite (map_ext _ (fun p => trim (toUpperCase p)))
      by (intros p; apply toUpperCase_after_trim).
    rewrite <- (map_map toUpperCase trim).
    rewrite <- toUpperCase_between_commas, Hu, toUpperCase_between_commas.
    rewrite split_join.
    + rewrite map_map. apply map_ext_in. intros s Hs.
      rewrite <- toUpperCase_after_trim. f_equal. now apply Hall.
    + exact Hne.
    + apply forallb_forall. intros s Hs. now apply Hall.
Qed.

Lemma preSelectFrom_repeat (queryParties : list string) (ps : list Party) :
  preSelectFrom queryParties ps (repeat false (List.length ps))
  = map (fun p => JSString.includes queryParties (toUpperCase (shortName p)))
        ps.
Proof.
  induction ps as [|p ps IH]; simpl; [reflexivity|].
  rewrite IH. now destruct (JSString.includes _ _).
Qed.

Lemma boxes_by_pairs (F : Party -> bool) (table : list Party)
    (checkboxes : list bool) :
  List.length checkboxes = List.length table ->
  (forall p b, In (p, b) (combine table checkboxes) -> F p = b) ->
  map F table = checkboxes.
Proof.
  revert checkboxes. induction table as [|p table IH]; intros [|b cb] Hlen H;
    try discriminate; [reflexivity|].
  cbn [map]. f_equal.
  - apply H. now left.
  - apply IH; [simpl in Hlen; lia|]. intros q d Hq. apply H. now right.
Qed.

(** On a page with no box checked, checking the boxes of the parties whose
    upper-cased short name is among the upper-cased short names of the
    selection gives back the boxes the selection was read from. *)
Lemma restored_boxes (table : list Party) (checkboxes : list bool) :
  List.length checkboxes = List.length table ->
  survivesQuery table checkboxes = true ->
  preSelectFrom
    (map toUpperCase (map shortName (checkedParties table checkboxes)))
    table (repeat false (List.length table))
  = checkboxes.
Proof.
  intros Hlen Hok. unfold survivesQuery in Hok. cbv zeta in Hok.
  apply andb_true_iff in Hok as [_ Hsep].
  rewrite forallb_forall in Hsep.
  rewrite preSelectFrom_repeat.
  apply boxes_by_pairs; [exact Hlen|].
  intros p b Hin. destruct b.
  - apply includes_In. apply in_map. apply in_map.
    unfold checkedParties.
    change p with (fst (p, true)). apply in_map.
    apply filter_In. now split.
  - specialize (Hsep (p, false) Hin). cbn [snd fst orb] in Hsep.
    now apply negb_true_iff in Hsep.
Qed.

(** A page with unchecked boxes whose query string holds, in any letter
    case, the parameter written for the boxes of [c]: [preSelectFromQuery]
    checks the boxes of [c] and runs [handlePartySelection]. *)
Lemma restore_boxes (c c2 : UIController) (u : string) :
  List.length (partyPicker c) = List.length (parties c) ->
  survivesQuery (parties c) (partyPicker c) = true ->
  toUpperCase u
  = toUpperCase
      (JSString.join ","
         (map shortName (checkedParties (parties c) (partyPicker c)))) ->
  parties c2 = parties c ->
  partyPicker c2 = repeat false (List.length (parties c)) ->
  URLSearchParams.get (location c2) "parties" = Some u ->
  preSelectFromQuery c2
  = handlePartySelection (set_partyPicker (partyPicker c) c2).
Proof.
  intros Hboxes Hok Hcase Htable Hfresh Hurl.
  pose proof Hok as Hok'. unfold survivesQuery in Hok'. cbv zeta in Hok'.
  apply andb_true_iff in Hok' as [Hok' _].
  apply andb_true_iff in Hok' as [Hnames Htruthy].
  destruct (query_names _ u Hnames Htruthy Hcase) as [Hu Hsplit].
  unfold preSelectFromQuery, getQueryParties.
  rewrite Hurl, Hu, Hsplit, Htable, Hfresh.
  destruct (List.length _ =? 0)%nat eqn:E.
  { apply Nat.eqb_eq in E. rewrite !length_map in E.
    destruct (checkedParties (parties c) (partyPicker c)); [|discriminate].
    discriminate. }
  now rewrite (restored_boxes (parties c) (partyPicker c) Hboxes Hok).
Qed.

(** C1, as amended.  Let a non-empty selection be such that every selected
    short name is free of commas and has no white space at either end, the
    names joined by commas are not the empty text, and no party outside the
    selection has the short name of a selected party, letter case ignored.
    If [handlePartySelection] has written this selection into the [parties]
    parameter, then [preSelectFromQuery], on a page of the same parties with
    no box checked whose query string holds that parameter in any letter
    case, selects the same set of parties. *)
Theorem parties_query_round_trip
    (c c2 : UIController) (sel : list nat) (v u : string)
    (Hboxes : List.length (partyPicker c) = List.length (parties c))
    (Hok : survivesQuery (parties c) (partyPicker c) = true)
    (Hsel : selectionOf (handlePartySelection c) = Some sel)
    (Hquery : queryOf (handlePartySelection c) = Some v)
    (Hcase : toUpperCase u = toUpperCase v)
    (Htable : parties c2 = parties c)
    (Hfresh : partyPicker c2 = repeat false (List.length (parties c)))
    (Hurl : URLSearchParams.get (location c2) "parties" = Some u) :
  selectionOf (preSelectFromQuery c2) = Some sel.
Proof.
  destruct (handlePartySelection_fields c)
    as [c1 [ps [H1 [H2 [H3 [H4 [H5 H6]]]]]]]; [lia|].
  rewrite H1 in Hsel, Hquery. cbn [selectionOf queryOf] in Hsel, Hquery.
  injection Hsel as Hsel.
  (* the parties behind the checked boxes, and the parameter written *)
  assert (Hpsq : ps = checkedParties (parties c) (partyPicker c)).
  { apply checked_parties; [lia|].
    rewrite <- (mapM_party_table c c1 _ H3), <- H2. exact H5. }
  assert (Hnm : map shortName ps <> []).
  { subst ps. unfold survivesQuery in Hok. cbv zeta in Hok.
    apply andb_true_iff in Hok as [Hok _].
    apply andb_true_iff in Hok as [_ Hok].
    intros E. rewrite E in Hok. discriminate. }
  rewrite H6, (updateQueryParams_nonempty _ c Hnm) in Hquery.
  injection Hquery as <-. rewrite Hpsq in Hcase.
  (* the page that is opened with the parameter *)
  rewrite (restore_boxes c c2 u Hboxes Hok Hcase Htable Hfresh Hurl).
  destruct (handlePartySelection_fields (set_partyPicker (partyPicker c) c2))
    as [c3 [ps3 [G1 [G2 _]]]].
  { cbn [partyPicker parties set_partyPicker]. rewrite Htable. lia. }
  rewrite G1. cbn [selectionOf]. rewrite G2.
  cbn [partyPicker set_partyPicker]. now rewrite <- H2, Hsel.
Qed.

End RoundTrip.

(** D66 and PvdA-GL are checked; the page is opened again with the names in
    lower case. *)
Lemma parties_query_round_trip_witness :
  selectionOf
    (preSelectFromQuery (sp := asciiStrings)
       (page demoParties [false; false; false; false; false] false
             [("lang", "nl"); ("parties", "d66,pvda-gl")]))
  = Some [0%nat; 2%nat].
Proof.
  apply (parties_query_round_trip (laws := asciiStrings_laws)
           (page demoParties [true; false; true; false; false] true
                 [("lang", "nl")])
           (page demoParties [false; false; false; false; false] false
                 [("lang", "nl"); ("parties", "d66,pvda-gl")])
           [0%nat; 2%nat] "D66,PvdA-GL" "d66,pvda-gl").
  - reflexivity.
  - vm_compute. reflexivity.
  - vm_compute. reflexivity.
  - vm_compute. reflexivity.
  - vm_compute. reflexivity.
  - reflexivity.
  - reflexivity.
  - reflexivity.
Defined.

(** C1, the counterexample.  The short name of the second party has a
    comma.  Both parties are selected, the parameter is written, and the
    page is opened again with the parameter as written: only D66 is
    selected. *)
Lemma parties_query_round_trip_counterexample :
  let data := [D66; LijstJansen] in
  let c := page (sortBySeats data) [true; true] false [] in
  let c2 := page (sortBySeats data) [false; false] false
                 [("parties", "D66,Lijst Jansen, Piet")] in
  parties c = sortBySeats data
  /\ selectionOf (handlePartySelection c) = Some [0%nat; 1%nat]
  /\ queryOf (handlePartySelection c) = Some "D66,Lijst Jansen, Piet"
  /\ selectionOf (preSelectFromQuery (sp := asciiStrings) c2) = Some [0%nat]
  /\ selectionOf
       (handleParse (sp := asciiStrings) data (Svg.mk true None)
          (newUIController (Some false) [("parties", "D66,Lijst Jansen, Piet")]))
     = Some [0%nat]
  /\ selectionOf
       (handleParse (sp := asciiStrings) data (Svg.mk true None)
          (newUIController (Some false) [("parties", "D66,Lijst Jansen, Piet")]))
     <> selectionOf (handlePartySelection c).
Proof.
  cbv zeta. refine (conj _ (conj _ (conj _ (conj _ (conj _ _))))).
  - reflexivity.
  - vm_compute. reflexivity.
  - vm_compute. reflexivity.
  - vm_compute. reflexivity.
  - vm_compute. reflexivity.
  - vm_compute. discriminate.
Qed.

(** On the table of the counterexample the selection of D66 alone meets the
    conditions, and comes back. *)
Example round_trip_D66_alone :
  let table := sortBySeats [D66; LijstJansen] in
  survivesQuery (sp := asciiStrings) table [true; false] = true
  /\ queryOf (handlePartySelection (page table [true; false] false []))
     = Some "D66"
  /\ selectionOf
       (preSelectFromQuery (sp := asciiStrings)
          (page table [false; false] false [("parties", "d66")]))
     = Some [0%nat].
Proof. cbv zeta. repeat split; vm_compute; reflexivity. Qed.

(** The other conditions are needed as well.  A selected short name with
    white space at its end is trimmed on the way back and matches nothing; a
    party outside the selection whose short name is that of a selected one
    up to letter case is selected too; a single selected party with the
    empty short name writes an empty parameter, which reads as no names. *)
Example round_trip_conditions_needed :
  (queryOf (handlePartySelection (page [named "Lijst X "] [true] false []))
   = Some "Lijst X "
   /\ selectionOf
        (preSelectFromQuery (sp := asciiStrings)
           (page [named "Lijst X "] [false] false [("parties", "Lijst X ")]))
      = Some [])
  /\ (queryOf (handlePartySelection
                 (page [named "Abc"; named "ABC"] [true; false] false []))
      = Some "Abc"
      /\ selectionOf
           (preSelectFromQuery (sp := asciiStrings)
              (page [named "Abc"; named "ABC"] [false; false] false
                    [("parties", "Abc")]))
         = Some [0%nat; 1%nat])
  /\ (queryOf (handlePartySelection (page [named ""] [true] false []))
      = Some ""
      /\ selectionOf
           (preSelectFromQuery (sp := asciiStrings)
              (page [named ""] [false] false [("parties", "")]))
         = Some []).
Proof. repeat split; vm_compute; reflexivity. Qed.

(** ** The examples of the specification *)

Example divergence_ex :
  calculateAverage (demo [specA; specB] [true; true] false)
  = Ok (Some (Average.mk (Finite (num 50)) (Finite (num 40))))
  /\ calculateAverage (demo [specA; specB] [true; true] true)
     = Ok (Some (Average.mk (Finite (num 10)) (Finite (num 40)))).
Proof. split; js_eq. Qed.

Example marker_ex :
  option_map marker
    (match updateCompassMarker (demo [specC] [true] false) with
     | Ok c => Some c
     | TypeError => None
     end)
  = Some (Some (Marker.mk (Finite (num 50)) (Finite (num 35)))).
Proof. js_eq. Qed.

Example sortBySeats_ex :
  map shortName (sortBySeats [VVD; BIJ1; D66; NSC; PvdAGL])
  = ["D66"; "VVD"; "PvdA-GL"; "BIJ1"; "NSC"].
Proof. vm_compute. reflexivity. Qed.

Example out_of_range_ex :
  calculateAverage
    (mkUI [D66] [1%nat] (Some true) [] "" DisplayUnset None None [])
  = TypeError.
Proof. reflexivity. Qed.

(** * Further properties of the controller *)

(** ** The sort of [handleParse] *)

Lemma Qc_ltb_ge (a b : Qc) : Qc_ltb a b = false <-> b <= a.
Proof.
  unfold Qc_ltb, Qcle. rewrite negb_false_iff. apply Qle_bool_iff.
Qed.

Lemma insertBySeats_perm (p : Party) (l : list Party) :
  Permutation (p :: l) (insertBySeats p l).
Proof.
  induction l as [|q l IH]; simpl; [apply Permutation_refl|].
  destruct (Qc_ltb (sortKey p) (sortKey q)); [|apply Permutation_refl].
  apply perm_trans with (q :: p :: l); [apply perm_swap|].
  now apply perm_skip.
Qed.

Lemma sortBySeats_perm (data : list Party) :
  Permutation data (sortBySeats data).
Proof.
  induction data as [|p data IH]; simpl; [constructor|].
  apply perm_trans with (p :: sortBySeats data);
    [now apply perm_skip | apply insertBySeats_perm].
Qed.

(** X1. The sort of [handleParse] only reorders the parties of the
    document: the table holds the same parties, each as often as the
    document does, so there are as many check boxes as parties. *)
Theorem sortBySeats_permutation (data : list Party) :
  Permutation data (sortBySeats data)
  /\ List.length (sortBySeats data) = List.length data
  /\ (forall p, In p (sortBySeats data) <-> In p data).
Proof.
  pose proof (sortBySeats_perm data) as H.
  refine (conj H (conj _ _)).
  - symmetry. now apply Permutation_length.
  - intros p. split; intros Hp.
    + apply Permutation_sym in H. exact (Permutation_in p H Hp).
    + exact (Permutation_in p H Hp).
Qed.

Lemma insertBySeats_Forall (P : Party -> Prop) (p : Party) (l : list Party) :
  P p -> Forall P l -> Forall P (insertBySeats p l).
Proof.
  intros Hp Hl.
  apply (Permutation_Forall (insertBySeats_perm p l)). now constructor.
Qed.

Lemma insertBySeats_sorted (p : Party) (l : list Party) :
  StronglySorted bySeatsDescending l ->
  StronglySorted bySeatsDescending (insertBySeats p l).
Proof.
  induction l as [|q l IH]; simpl; intros Hs.
  - repeat constructor.
  - apply StronglySorted_inv in Hs as [Hl Hq].
    destruct (Qc_ltb (sortKey p) (sortKey q)) eqn:E.
    + constructor; [now apply IH|].
      apply insertBySeats_Forall; [|exact Hq].
      apply Qc_ltb_lt in E. unfold bySeatsDescending.
      now apply Qclt_le_weak.
    + apply Qc_ltb_ge in E.
      constructor; [now constructor|].
      constructor; [exact E|].
      apply (Forall_impl _ (P := bySeatsDescending q)); [|exact Hq].
      intros r Hr. unfold bySeatsDescending in *.
      now apply Qcle_trans with (sortKey q).
Qed.

(** X2. After the sort of [handleParse] the parties stand by seats in
    descending order, a party without seat data counting 0: no party has
    fewer seats than a party that comes after it. *)
Theorem sortBySeats_descending (data : list Party) :
  StronglySorted bySeatsDescending (sortBySeats data)
  /\ (forall i j p q,
        (i < j)%nat ->
        nth_error (sortBySeats data) i = Some p ->
        nth_error (sortBySeats data) j = Some q ->
        seatsOr 0 q <= seatsOr 0 p).
Proof.
  assert (Hs : StronglySorted bySeatsDescending (sortBySeats data)).
  { induction data as [|p data IH]; simpl; [constructor|].
    now apply insertBySeats_sorted. }
  split; [exact Hs|].
  generalize dependent (sortBySeats data). intros l Hs.
  induction Hs as [|a l Hl IH Ha]; intros i j p q Hij Hi Hj.
  - destruct i; discriminate.
  - destruct j as [|j]; [lia|]. simpl in Hj.
    destruct i as [|i].
    + simpl in Hi. injection Hi as <-.
      rewrite Forall_forall in Ha.
      exact (Ha q (nth_error_In _ _ Hj)).
    + simpl in Hi. apply (IH i j); trivial. lia.
Qed.

Lemma insertBySeats_filter (k : Qc) (p : Party) (l : list Party) :
  filter (fun q => Qc_eqb (sortKey q) k) (insertBySeats p l)
  = filter (fun q => Qc_eqb (sortKey q) k) (p :: l).
Proof.
  induction l as [|q l IH]; [reflexivity|].
  cbn [insertBySeats].
  destruct (Qc_ltb (sortKey p) (sortKey q)) eqn:E; [|reflexivity].
  cbn [filter] in *. rewrite IH.
  destruct (Qc_eqb (sortKey p) k) eqn:Ep; [|reflexivity].
  destruct (Qc_eqb (sortKey q) k) eqn:Eq; [|reflexivity].
  exfalso. apply Qc_eqb_eq in Ep, Eq. apply Qc_ltb_lt in E.
  rewrite Ep, Eq in E. exact (Qlt_irrefl _ E).
Qed.

(** X3. The sort of [handleParse] is stable: the parties with one and the
    same seat count stand in the table in the order of the document. *)
Theorem sortBySeats_stable (data : list Party) (k : Qc) :
  filter (fun q => Qc_eqb (sortKey q) k) (sortBySeats data)
  = filter (fun q => Qc_eqb (sortKey q) k) data.
Proof.
  induction data as [|p data IH]; [reflexivity|].
  cbn [sortBySeats fold_right].
  change (fold_right insertBySeats [] data) with (sortBySeats data).
  rewrite insertBySeats_filter. cbn [filter]. now rewrite IH.
Qed.

(** ** [updateQueryParams] and the rest of the query string *)

Section QueryFrame.
Import URLSearchParams.

Lemma delete_delete (p : t) (k : string) : delete (delete p k) k = delete p k.
Proof.
  induction p as [|[k' v'] p IH]; simpl; [reflexivity|].
  destruct (String.eqb k' k) eqn:E; simpl; [exact IH|].
  now rewrite E, IH.
Qed.

Lemma delete_set (p : t) (k v : string) : delete (set p k v) k = delete p k.
Proof.
  induction p as [|[k' v'] p IH]; simpl.
  - now rewrite String.eqb_refl.
  - destruct (String.eqb k' k) eqn:E; simpl.
    + rewrite String.eqb_refl. simpl. apply delete_delete.
    + now rewrite E, IH.
Qed.

Lemma set_set (p : t) (k v : string) : set (set p k v) k v = set p k v.
Proof.
  induction p as [|[k' v'] p IH]; simpl.
  - now rewrite String.eqb_refl.
  - destruct (String.eqb k' k) eqn:E; simpl.
    + now rewrite String.eqb_refl, delete_delete.
    + now rewrite E, IH.
Qed.

Lemma get_delete_other (p : t) (k k' : string) :
  k' <> k -> get (delete p k) k' = get p k'.
Proof.
  intros Hk. induction p as [|[k0 v0] p IH]; simpl; [reflexivity|].
  destruct (String.eqb k0 k) eqn:E; simpl.
  - apply String.eqb_eq in E. subst k0.
    apply not_eq_sym in Hk. apply String.eqb_neq in Hk. now rewrite Hk.
  - now rewrite IH.
Qed.

Lemma get_set_other (p : t) (k k' v : string) :
  k' <> k -> get (set p k v) k' = get p k'.
Proof.
  intros Hk. induction p as [|[k0 v0] p IH]; simpl.
  - apply not_eq_sym in Hk. apply String.eqb_neq in Hk. now rewrite Hk.
  - destruct (String.eqb k0 k) eqn:E; simpl.
    + apply String.eqb_eq in E. subst k0.
      apply not_eq_sym in Hk. apply String.eqb_neq in Hk as Hk'.
      rewrite Hk'. apply get_delete_other. now apply not_eq_sym.
    + now rewrite IH.
Qed.

Lemma occurrences_delete (p : t) (k : string) : occurrences (delete p k) k = 0%nat.
Proof.
  unfold occurrences. induction p as [|[k' v'] p IH]; simpl; [reflexivity|].
  destruct (String.eqb k' k) eqn:E; simpl; [exact IH|].
  now rewrite E.
Qed.

Lemma occurrences_set (p : t) (k v : string) : occurrences (set p k v) k = 1%nat.
Proof.
  induction p as [|[k' v'] p IH]; unfold occurrences in *; simpl.
  - now rewrite String.eqb_refl.
  - destruct (String.eqb k' k) eqn:E; simpl.
    + rewrite String.eqb_refl. simpl. f_equal. apply occurrences_delete.
    + now rewrite E.
Qed.

End QueryFrame.

(** X4. [updateQueryParams] touches nothing but the [parties] key: the
    other pairs of the query string stay, in their order, and every other
    key reads as before. *)
Theorem updateQueryParams_frame (names : list string) (c : UIController) :
  URLSearchParams.delete (location (updateQueryParams names c)) "parties"
  = URLSearchParams.delete (location c) "parties"
  /\ (forall k, k <> "parties" ->
        URLSearchParams.get (location (updateQueryParams names c)) k
        = URLSearchParams.get (location c) k).
Proof.
  unfold updateQueryParams. cbn [location set_location].
  destruct (List.length names =? 0)%nat.
  - split; [apply delete_delete|].
    intros k Hk. now apply get_delete_other.
  - split; [apply delete_set|].
    intros k Hk. now apply get_set_other.
Qed.

Lemma updateQueryParams_frame_witness :
  URLSearchParams.get
    (location (updateQueryParams ["D66"]
                 (page demoParties [] true [("lang", "nl"); ("parties", "VVD")])))
    "lang"
  = URLSearchParams.get [("lang", "nl"); ("parties", "VVD")] "lang".
Proof.
  apply (proj2 (updateQueryParams_frame ["D66"]
                  (page demoParties [] true [("lang", "nl"); ("parties", "VVD")]))).
  discriminate.
Defined.

(** X5. After [updateQueryParams] the [parties] key occurs once when there
    are names and not at all when there are none, also when the query string
    had the key several times; and writing the same names a second time
    changes nothing. *)
Theorem updateQueryParams_once (names : list string) (c : UIController) :
  occurrences (location (updateQueryParams names c)) "parties"
  = (if (List.length names =? 0)%nat then 0 else 1)%nat
  /\ updateQueryParams names (updateQueryParams names c)
     = updateQueryParams names c.
Proof.
  unfold updateQueryParams. cbn [location set_location].
  destruct (List.length names =? 0)%nat.
  - split; [apply occurrences_delete|].
    unfold set_location. cbn. now rewrite delete_delete.
  - split; [apply occurrences_set|].
    unfold set_location. cbn. now rewrite set_set.
Qed.

Example updateQueryParams_repeated_ex :
  location (updateQueryParams ["D66"; "CDA"]
              (page demoParties [] true
                    [("parties", "VVD"); ("lang", "nl"); ("parties", "SP")]))
  = [("parties", "D66,CDA"); ("lang", "nl")].
Proof. reflexivity. Qed.

(** ** [getQueryParties] *)

Section TrimFacts.
Import JSString.

Lemma upper_ascii_idem (c : ascii) : upper_ascii (upper_ascii c) = upper_ascii c.
Proof. destruct c as [[] [] [] [] [] [] [] []]; reflexivity. Qed.

Lemma toUpperCase_idem (s : string) : toUpperCase (toUpperCase s) = toUpperCase s.
Proof.
  induction s as [|c s IH]; simpl; [reflexivity|].
  now rewrite upper_ascii_idem, IH.
Qed.

Lemma trimEnd_idem (s : string) : trimEnd (trimEnd s) = trimEnd s.
Proof.
  induction s as [|c s IH]; simpl; [reflexivity|].
  destruct (is_white c && is_empty (trimEnd s)) eqn:E; [reflexivity|].
  simpl. now rewrite IH, E.
Qed.

Lemma trimStart_trimEnd (s : string) :
  trimStart s = s -> trimStart (trimEnd s) = trimEnd s.
Proof.
  destruct s as [|c s]; [reflexivity|]. simpl.
  destruct (is_white c) eqn:E.
  - intros H. exfalso.
    assert (Hl : forall t, (String.length (trimStart t) <= String.length t)%nat).
    { induction t as [|d t IHt]; simpl; [lia|].
      destruct (is_white d); simpl; lia. }
    specialize (Hl s). rewrite H in Hl. simpl in Hl. lia.
  - intros _. simpl. now rewrite E.
Qed.

Lemma trimStart_idem (s : string) : trimStart (trimStart s) = trimStart s.
Proof.
  induction s as [|c s IH]; simpl; [reflexivity|].
  destruct (is_white c) eqn:E; [exact IH|]. simpl. now rewrite E.
Qed.

Lemma trim_idem (s : string) : trim (trim s) = trim s.
Proof.
  unfold trim.
  rewrite (trimStart_trimEnd (trimStart s) (trimStart_idem s)).
  apply trimEnd_idem.
Qed.

End TrimFacts.

(** *** ASCII text *)

Section AsciiFacts.
Import JSString.

Lemma upper_ascii_ascii (c : ascii) :
  (N_of_ascii c <? 128)%N = true -> (N_of_ascii (upper_ascii c) <? 128)%N = true.
Proof. destruct c as [[] [] [] [] [] [] [] []]; intros H; vm_compute in *; congruence. Qed.

Lemma isAscii_toUpperCase (s : string) :
  isAscii s = true -> isAscii (toUpperCase s) = true.
Proof.
  induction s as [|c s IH]; simpl; [reflexivity|].
  intros H. apply andb_true_iff in H as [Hc Hs].
  apply andb_true_iff. split; [now apply upper_ascii_ascii | now apply IH].
Qed.

Lemma isAscii_trimStart (s : string) :
  isAscii s = true -> isAscii (trimStart s) = true.
Proof.
  induction s as [|c s IH]; [reflexivity|]. intros H. cbn [trimStart].
  destruct (is_white c); [|exact H].
  apply IH. cbn [isAscii] in H. now apply andb_true_iff in H as [_ H].
Qed.

Lemma isAscii_trimEnd (s : string) :
  isAscii s = true -> isAscii (trimEnd s) = true.
Proof.
  induction s as [|c s IH]; [reflexivity|]. intros H. cbn [trimEnd].
  cbn [isAscii] in H. apply andb_true_iff in H as [Hc Hs].
  destruct (is_white c && is_empty (trimEnd s)); [reflexivity|].
  cbn [isAscii]. now rewrite Hc, IH.
Qed.

Lemma isAscii_trim (s : string) : isAscii s = true -> isAscii (trim s) = true.
Proof. intros H. unfold trim. now apply isAscii_trimEnd, isAscii_trimStart. Qed.

Lemma isAscii_split (s : string) :
  isAscii s = true -> forall p, In p (split s) -> isAscii p = true.
Proof.
  induction s as [|c s IH]; intros H p Hp.
  - destruct Hp as [<-|[]]. reflexivity.
  - cbn [isAscii] in H. apply andb_true_iff in H as [Hc Hs].
    specialize (IH Hs). cbn [split] in Hp.
    destruct (Ascii.eqb c comma).
    + destruct Hp as [<-|Hp]; [reflexivity | now apply IH].
    + destruct (split s) as [|h t].
      * destruct Hp as [<-|[]]. cbn [isAscii]. now rewrite Hc.
      * destruct Hp as [<-|Hp].
        -- cbn [isAscii]. rewrite Hc. apply IH. now left.
        -- apply IH. now right.
Qed.

End AsciiFacts.

(** X6. [getQueryParties] returns no names exactly when the [parties] key is
    absent or holds the empty string, whatever the letters of the text.
    For a parameter of ASCII characters only, where upper case is the map of
    a to z onto A to Z and [trim] removes TAB, LF, VT, FF, CR and the space,
    every name returned is ASCII text without a lower-case letter and
    without white space at either end. *)
Theorem getQueryParties_normalised {sp : StringPrototype} (c : UIController) :
  (getQueryParties c = []
   <-> URLSearchParams.get (location c) "parties" = None
       \/ URLSearchParams.get (location c) "parties" = Some "")
  /\ (forall v n,
        URLSearchParams.get (location c) "parties" = Some v ->
        isAscii v = true ->
        In n (getQueryParties (sp := asciiStrings) c) ->
        isAscii n = true
        /\ JSString.toUpperCase n = n
        /\ JSString.trim n = n).
Proof.
  unfold getQueryParties.
  destruct (URLSearchParams.get (location c) "parties") as [v|].
  - destruct v as [|a v].
    + simpl. split; [split; auto|]. intros v n _ _ [].
    + cbn [JSString.truthy JSString.is_empty negb]. split.
      * split.
        -- intros H. apply map_eq_nil in H.
           exfalso. exact (split_not_nil _ H).
        -- intros [H|H]; discriminate.
      * intros v' n Hv Hascii Hn. injection Hv as <-.
        apply in_map_iff in Hn as [p [<- Hp]].
        cbn [toUpperCase trim asciiStrings].
        refine (conj _ (conj _ _)).
        -- apply isAscii_toUpperCase, isAscii_trim.
           exact (isAscii_split _ Hascii p Hp).
        -- apply toUpperCase_idem.
        -- now rewrite toUpperCase_trim, trim_idem.
  - split; [split; auto|]. intros v n Hv. discriminate.
Qed.

Lemma getQueryParties_normalised_witness :
  isAscii "PVDA-GL" = true
  /\ JSString.toUpperCase "PVDA-GL" = "PVDA-GL"
  /\ JSString.trim "PVDA-GL" = "PVDA-GL".
Proof.
  apply (proj2 (getQueryParties_normalised (sp := asciiStrings)
                  (page demoParties [] true [("parties", " d66 ,PvdA-gl ")]))
               " d66 ,PvdA-gl ").
  - reflexivity.
  - reflexivity.
  - vm_compute. right. left. reflexivity.
Defined.

Example getQueryParties_ex :
  getQueryParties (sp := asciiStrings)
    (page demoParties [] true [("parties", " d66 ,PvdA-gl ")])
  = ["D66"; "PVDA-GL"]
  /\ getQueryParties (sp := asciiStrings)
       (page demoParties [] true [("parties", ",")]) = [""; ""]
  /\ getQueryParties (sp := asciiStrings)
       (page demoParties [] true [("parties", "VVD"); ("parties", "SP")])
     = ["VVD"].
Proof. repeat split. Qed.

(** ** [handlePartySelection], the whole step *)

Lemma updateCompassMarker_result (c : UIController) (a : option Average.t) :
  calculateAverage c = Ok a ->
  updateCompassMarker c
  = Ok (set_svgDisplay
          (match svgDisplay c with
           | None => None
           | Some svg => Some (Svg.mk (Svg.compass svg)
                                      (markerFor (Svg.compass svg) a))
           end) c).
Proof.
  intros Ha. unfold updateCompassMarker.
  destruct (svgDisplay c) as [svg|] eqn:Es.
  - change (calculateAverage
              (set_svgDisplay (Some (Svg.mk (Svg.compass svg) None)) c))
      with (calculateAverage c).
    rewrite Ha. cbn [bind]. unfold markerFor.
    destruct a as [a|]; [|reflexivity].
    cbn [Svg.compass]. destruct (Svg.compass svg); reflexivity.
  - destruct c. simpl in *. now subst.
Qed.

Lemma handlePartySelection_result (c : UIController) (ps : list Party)
    (a : option Average.t) :
  mapM (party c) (checkedFrom 0 (partyPicker c)) = Ok ps ->
  calculateAverage (set_selectedParties (checkedFrom 0 (partyPicker c)) c) = Ok a ->
  handlePartySelection c = Ok (afterSelection c ps a).
Proof.
  intros Hps Ha.
  set (c1 := set_selectedParties (checkedFrom 0 (partyPicker c)) c) in *.
  assert (Hsel1 : selected c1 = Ok ps) by exact Hps.
  unfold handlePartySelection. fold c1.
  destruct (List.length (selectedParties c1) =? 0)%nat eqn:E.
  - assert (Hps0 : ps = []).
    { apply mapM_length in Hsel1. apply Nat.eqb_eq in E.
      rewrite E in Hsel1. destruct ps; [reflexivity | discriminate]. }
    subst ps. cbn [bind fst snd].
    rewrite (updateCompassMarker_result _ a); [reflexivity | exact Ha].
  - assert (Hne : ps <> []).
    { apply mapM_length in Hsel1. apply Nat.eqb_neq in E.
      destruct ps; [symmetry in Hsel1; contradiction | discriminate]. }
    unfold selectedShortNamesArray.
    rewrite (mapM_parties c1 shortName _ _ Hsel1). cbn [bind].
    rewrite (totalSeats_selected c1 ps Hsel1). cbn [bind].
    set (c2 := set_selectedCount _ c1).
    assert (Hsel2 : selected c2 = Ok ps) by exact Hsel1.
    rewrite (updateCoalitionStats_sums _ c2 ps Hsel2 Hne).
    cbv zeta. cbn [bind fst snd].
    rewrite (updateCompassMarker_result _ a); [|exact Ha].
    destruct ps as [|p ps]; [congruence|]. reflexivity.
Qed.

Lemma mapM_fails {A B} (f : A -> Res B) (l : list A) (a : A) :
  In a l -> f a = TypeError -> mapM f l = TypeError.
Proof.
  induction l as [|b l IH]; simpl; [intros []|].
  intros [->|Hin] Hf.
  - now rewrite Hf.
  - destruct (f b); [|reflexivity]. simpl. now rewrite (IH Hin Hf).
Qed.

Lemma checkedFrom_sorted (checkboxes : list bool) (k : nat) :
  StronglySorted lt (checkedFrom k checkboxes).
Proof.
  revert k. induction checkboxes as [|b cb IH]; intros k; simpl; [constructor|].
  destruct b; [|apply IH].
  constructor; [apply IH|].
  apply Forall_forall. intros i Hi.
  apply checkedFrom_In in Hi as [Hi _]. lia.
Qed.

(** The indices are in range exactly when no checked box is out of range. *)
Lemma checked_in_range (c : UIController) :
  (forall i, nth_error (partyPicker c) i = Some true ->
             (i < List.length (parties c))%nat) ->
  exists ps a,
    mapM (party c) (checkedFrom 0 (partyPicker c)) = Ok ps
    /\ calculateAverage (set_selectedParties (checkedFrom 0 (partyPicker c)) c)
       = Ok a.
Proof.
  intros H.
  destruct (mapM_party_bounded c (checkedFrom 0 (partyPicker c))) as [ps Hps].
  { intros i Hi. apply checkedFrom_In in Hi as [_ Hi].
    rewrite Nat.sub_0_r in Hi. now apply H. }
  destruct (calculateAverage_ok
              (set_selectedParties (checkedFrom 0 (partyPicker c)) c) ps Hps)
    as [a Ha].
  now exists ps, a.
Qed.

(** X7. [handlePartySelection] rebuilds the set from the check boxes alone:
    whatever the set held before, afterwards an index is in it exactly when
    its box is checked, the indices stand in increasing order without
    repetition, and the boxes are as they were. *)
Theorem handlePartySelection_selection (c : UIController)
    (Hboxes : (List.length (partyPicker c) <= List.length (parties c))%nat) :
  exists c',
    handlePartySelection c = Ok c'
    /\ (forall i, In i (selectedParties c')
                  <-> nth_error (partyPicker c) i = Some true)
    /\ StronglySorted lt (selectedParties c')
    /\ NoDup (selectedParties c')
    /\ partyPicker c' = partyPicker c.
Proof.
  destruct (checked_in_range c) as [ps [a [Hps Ha]]].
  { intros i Hi.
    assert (i < List.length (partyPicker c))%nat
      by (apply nth_error_Some; congruence).
    lia. }
  exists (afterSelection c ps a).
  split; [now apply handlePartySelection_result|].
  cbn [afterSelection selectedParties partyPicker].
  pose proof (checkedFrom_sorted (partyPicker c) 0) as Hs.
  refine (conj _ (conj Hs (conj _ eq_refl))).
  - intros i. rewrite checkedFrom_In, Nat.sub_0_r. split; [tauto|].
    intros Hi. split; [lia | exact Hi].
  - clear -Hs. induction Hs as [|i l Hl IH Hi]; constructor; [|exact IH].
    intros Hin. rewrite Forall_forall in Hi. specialize (Hi i Hin). lia.
Qed.

Lemma handlePartySelection_selection_witness :
  exists c',
    handlePartySelection
      (set_selectedParties [4%nat; 4%nat; 1%nat]
         (page demoParties [true; false; true; false; false] true []))
    = Ok c'
    /\ (forall i, In i (selectedParties c')
                  <-> nth_error [true; false; true; false; false] i = Some true)
    /\ StronglySorted lt (selectedParties c')
    /\ NoDup (selectedParties c')
    /\ partyPicker c' = [true; false; true; false; false].
Proof.
  apply (handlePartySelection_selection
           (set_selectedParties [4%nat; 4%nat; 1%nat]
              (page demoParties [true; false; true; false; false] true []))).
  vm_compute. lia.
Defined.

Lemma handlePartySelection_out_of_range (c : UIController) (i : nat) :
  nth_error (partyPicker c) i = Some true ->
  (List.length (parties c) <= i)%nat ->
  handlePartySelection c = TypeError.
Proof.
  intros Hi Hout.
  assert (Hin : In i (checkedFrom 0 (partyPicker c))).
  { apply checkedFrom_In. rewrite Nat.sub_0_r. split; [lia | exact Hi]. }
  unfold handlePartySelection.
  cbn [selectedParties set_selectedParties].
  destruct (checkedFrom 0 (partyPicker c)) as [|j sel] eqn:E;
    [destruct Hin|].
  cbn [List.length Nat.eqb]. unfold selectedShortNamesArray.
  cbn [selectedParties set_selectedParties].
  rewrite (mapM_fails _ (j :: sel) i Hin); [reflexivity|].
  unfold party. cbn [parties set_selectedParties].
  apply nth_error_None in Hout. now rewrite Hout.
Qed.

(** X8. [handlePartySelection] throws exactly when a checked box carries an
    index that is not an index of the party table. *)
Theorem handlePartySelection_throws (c : UIController) :
  handlePartySelection c = TypeError
  <-> exists i, nth_error (partyPicker c) i = Some true
                /\ (List.length (parties c) <= i)%nat.
Proof.
  split.
  - intros Hthrow.
    destruct (Forall_Exists_dec
                (fun i => i < List.length (parties c))%nat
                (fun i => lt_dec i (List.length (parties c)))
                (checkedFrom 0 (partyPicker c))) as [Hall|Hex].
    + exfalso. rewrite Forall_forall in Hall.
      destruct (checked_in_range c) as [ps [a [Hps Ha]]].
      { intros i Hi. apply Hall. apply checkedFrom_In.
        rewrite Nat.sub_0_r. split; [lia | exact Hi]. }
      rewrite (handlePartySelection_result c ps a Hps Ha) in Hthrow.
      discriminate.
    + apply Exists_exists in Hex as [i [Hi Hout]].
      apply checkedFrom_In in Hi as [_ Hi]. rewrite Nat.sub_0_r in Hi.
      exists i. split; [exact Hi | lia].
  - intros [i [Hi Hout]].
    now apply (handlePartySelection_out_of_range c i).
Qed.

Example handlePartySelection_throws_ex :
  handlePartySelection (page [D66; VVD] [false; true; true] false []) = TypeError.
Proof. reflexivity. Qed.

(** Every step that goes through is the step described by
    [afterSelection]. *)
Lemma handlePartySelection_inv (c c' : UIController) :
  handlePartySelection c = Ok c' ->
  exists ps a,
    mapM (party c) (checkedFrom 0 (partyPicker c)) = Ok ps
    /\ calculateAverage (set_selectedParties (checkedFrom 0 (partyPicker c)) c)
       = Ok a
    /\ c' = afterSelection c ps a.
Proof.
  intros H.
  destruct (checked_in_range c) as [ps [a [Hps Ha]]].
  - intros i Hi.
    destruct (lt_dec i (List.length (parties c))) as [Hlt|Hge]; [exact Hlt|].
    rewrite (handlePartySelection_out_of_range c i Hi) in H by lia.
    discriminate.
  - exists ps, a. refine (conj Hps (conj Ha _)).
    rewrite (handlePartySelection_result c ps a Hps Ha) in H. congruence.
Qed.

Lemma updateQueryParams_location_idem (names : list string)
    (l : URLSearchParams.t) (c c' : UIController) :
  location c' = location (updateQueryParams names c) ->
  location (updateQueryParams names c') = location (updateQueryParams names c).
Proof.
  unfold updateQueryParams. cbn [location set_location]. intros ->.
  destruct (List.length names =? 0)%nat; [apply delete_delete | apply set_set].
Qed.

(** X9. [handlePartySelection] is idempotent: run again on the page it has
    left behind, with no box changed in between, it leaves that page as it
    is (the set, the texts, the statistics, the marker and the query
    string). *)
Theorem handlePartySelection_idempotent (c c' : UIController)
    (Hstep : handlePartySelection c = Ok c') :
  handlePartySelection c' = Ok c'.
Proof.
  destruct (handlePartySelection_inv c c' Hstep) as [ps [a [Hps [Ha ->]]]].
  rewrite (handlePartySelection_result (afterSelection c ps a) ps a);
    [|exact Hps|exact Ha].
  f_equal. unfold afterSelection at 1.
  cbn [parties partyPicker weightedAverageCheckbox svgDisplay
       coalitionStatsContent afterSelection useWeighted].
  rewrite (updateQueryParams_location_idem (map shortName ps) []
             c (afterSelection c ps a) eq_refl).
  unfold afterSelection.
  destruct (svgDisplay c) as [svg|]; destruct ps as [|p ps]; reflexivity.
Qed.

Lemma handlePartySelection_idempotent_witness :
  let p := page demoParties [true; false; true; false; false] true
                [("parties", "VVD"); ("parties", "SP")] in
  handlePartySelection (orElse (handlePartySelection p) p)
  = Ok (orElse (handlePartySelection p) p).
Proof.
  cbv zeta.
  apply (handlePartySelection_idempotent
           (page demoParties [true; false; true; false; false] true
                 [("parties", "VVD"); ("parties", "SP")])).
  vm_compute. reflexivity.
Defined.



Example handlePartySelection_display_ex :
  selectedCount
    (orElse (handlePartySelection
               (page demoParties [true; false; true; false; false] true []))
            (page [] [] false []))
  = "Geselecteerd: D66, PvdA-GL".
Proof. vm_compute. reflexivity. Qed.

(** ** [calculateAverage] and the marker *)

Lemma calculateAverage_finite_point (c : UIController) (ps : list Party) :
  selected c = Ok ps -> ps <> [] ->
  exists x y, calculateAverage c = Ok (Some (Average.mk (Finite x) (Finite y))).
Proof.
  intros Hsel Hne.
  assert (Hcount : count ps <> 0) by (now apply count_neq_0).
  destruct (useWeighted c) eqn:Hw.
  - rewrite (calculateAverage_weighted_sums c ps Hsel Hne Hw). cbv zeta.
    destruct (Qc_ltb 0 (sum (map (seatsOr 1) ps))) eqn:E.
    + apply Qc_ltb_lt in E.
      assert (Hn : sum (map (seatsOr 1) ps) <> 0).
      { intros E0. rewrite E0 in E. exact (Qlt_irrefl _ E). }
      rewrite !div_finite by exact Hn. eauto.
    + rewrite !div_finite by exact Hcount. eauto.
  - rewrite (calculateAverage_simple_sums c ps Hsel Hne Hw).
    rewrite !div_finite by exact Hcount. eauto.
Qed.

(** X12. After [updateCompassMarker] the diagram has a marker exactly when
    the selection is not empty and the diagram has the compass surface; the
    marker then stands at the average plus the icon offset of 5 on both
    axes, wherever a marker stood before. *)
Theorem updateCompassMarker_marker (c : UIController) (ps : list Party)
    (Hsel : selected c = Ok ps) :
  exists c',
    updateCompassMarker c = Ok c'
    /\ (marker c' <> None
        <-> ps <> [] /\ exists svg, svgDisplay c = Some svg
                                    /\ Svg.compass svg = true)
    /\ (forall m, marker c' = Some m ->
          exists x y,
            calculateAverage c = Ok (Some (Average.mk (Finite x) (Finite y)))
            /\ m = Marker.mk (Finite (x + num 5)) (Finite (y + num 5))).
Proof.
  destruct ps as [|p ps].
  - assert (Ha : calculateAverage c = Ok None).
    { apply calculateAverage_empty. apply mapM_length in Hsel.
      destruct (selectedParties c); [reflexivity | discriminate]. }
    eexists. split; [exact (updateCompassMarker_result c None Ha)|].
    unfold marker. cbn [svgDisplay set_svgDisplay].
    destruct (svgDisplay c) as [svg|]; cbn [Svg.averageMarker markerFor].
    + split; [split; [congruence | intros [H _]; congruence]|].
      intros m Hm. discriminate.
    + split; [split; [congruence | intros [H _]; congruence]|].
      intros m Hm. discriminate.
  - destruct (calculateAverage_finite_point c (p :: ps) Hsel) as [x [y Ha]];
      [discriminate|].
    eexists. split; [exact (updateCompassMarker_result c _ Ha)|].
    unfold marker. cbn [svgDisplay set_svgDisplay].
    destruct (svgDisplay c) as [svg|]; cbn [Svg.averageMarker markerFor].
    + destruct (Svg.compass svg) eqn:Ec.
      * split.
        -- split; [|discriminate]. intros _. split; [discriminate|].
           exists svg. now split.
        -- intros m Hm. injection Hm as <-. exists x, y. now split.
      * split.
        -- split; [congruence|]. intros [_ [svg' [Hs Hc]]].
           injection Hs as <-. congruence.
        -- intros m Hm. discriminate.
    + split.
      * split; [congruence|]. intros [_ [svg' [Hs _]]]. discriminate.
      * intros m Hm. discriminate.
Qed.

Lemma updateCompassMarker_marker_witness :
  exists c',
    updateCompassMarker
      (set_svgDisplay
         (Some (Svg.mk true (Some (Marker.mk (Finite (num 1)) (Finite (num 2))))))
         (demo [specC] [true] false))
    = Ok c'
    /\ (marker c' <> None
        <-> [specC] <> [] /\ exists svg,
              Some (Svg.mk true (Some (Marker.mk (Finite (num 1)) (Finite (num 2)))))
              = Some svg
              /\ Svg.compass svg = true)
    /\ (forall m, marker c' = Some m ->
          exists x y,
            calculateAverage
              (set_svgDisplay
                 (Some (Svg.mk true (Some (Marker.mk (Finite (num 1)) (Finite (num 2))))))
                 (demo [specC] [true] false))
            = Ok (Some (Average.mk (Finite x) (Finite y)))
            /\ m = Marker.mk (Finite (x + num 5)) (Finite (y + num 5))).
Proof.
  apply (updateCompassMarker_marker
           (set_svgDisplay
              (Some (Svg.mk true (Some (Marker.mk (Finite (num 1)) (Finite (num 2))))))
              (demo [specC] [true] false))
           [specC]).
  reflexivity.
Defined.

(** *** Weighted sums between bounds *)

Lemma sum_cons (a : Qc) (l : list Qc) : sum (a :: l) = a + sum l.
Proof. reflexivity. Qed.

Lemma Qcdiv_le_upper (a t M : Qc) : 0 < t -> a <= M * t -> a / t <= M.
Proof.
  intros Ht H. apply (Qcmult_lt_0_le_reg_r _ _ t Ht).
  replace (a / t * t) with a; [exact H|].
  field. intros E. rewrite E in Ht. exact (Qlt_irrefl _ Ht).
Qed.

Lemma Qcdiv_le_lower (a t m : Qc) : 0 < t -> m * t <= a -> m <= a / t.
Proof.
  intros Ht H. apply (Qcmult_lt_0_le_reg_r _ _ t Ht).
  replace (a / t * t) with a; [exact H|].
  field. intros E. rewrite E in Ht. exact (Qlt_irrefl _ Ht).
Qed.

Lemma weighted_sum_upper (w f : Party -> Qc) (M : Qc) (ps : list Party) :
  (forall p, In p ps -> 0 <= w p) ->
  (forall p, In p ps -> f p <= M) ->
  sum (map (fun p => f p * w p) ps) <= M * sum (map w ps).
Proof.
  induction ps as [|p ps IH]; intros Hw Hf.
  - cbn [map]. unfold sum. cbn [fold_right]. rewrite Qcmult_0_r. apply Qcle_refl.
  - cbn [map]. rewrite !sum_cons, Qcmult_plus_distr_r.
    apply Qcplus_le_compat.
    + apply Qcmult_le_compat_r; [apply Hf | apply Hw]; now left.
    + apply IH; intros q Hq; [apply Hw | apply Hf]; now right.
Qed.

Lemma weighted_sum_lower (w f : Party -> Qc) (m : Qc) (ps : list Party) :
  (forall p, In p ps -> 0 <= w p) ->
  (forall p, In p ps -> m <= f p) ->
  m * sum (map w ps) <= sum (map (fun p => f p * w p) ps).
Proof.
  induction ps as [|p ps IH]; intros Hw Hf.
  - cbn [map]. unfold sum. cbn [fold_right]. rewrite Qcmult_0_r. apply Qcle_refl.
  - cbn [map]. rewrite !sum_cons, Qcmult_plus_distr_r.
    apply Qcplus_le_compat.
    + apply Qcmult_le_compat_r; [apply Hf | apply Hw]; now left.
    + apply IH; intros q Hq; [apply Hw | apply Hf]; now right.
Qed.

Lemma weightedMean_between (w f : Party -> Qc) (m M : Qc) (ps : list Party) :
  (forall p, In p ps -> 0 <= w p) ->
  0 < sum (map w ps) ->
  (forall p, In p ps -> m <= f p <= M) ->
  m <= weightedMean w f ps <= M.
Proof.
  intros Hw Ht Hf. unfold weightedMean. split.
  - apply Qcdiv_le_lower; [exact Ht|].
    apply weighted_sum_lower; [exact Hw|]. intros p Hp. now apply Hf.
  - apply Qcdiv_le_upper; [exact Ht|].
    apply weighted_sum_upper; [exact Hw|]. intros p Hp. now apply Hf.
Qed.

Lemma Qc_0_le_1 : 0 <= 1.
Proof. unfold Qcle. simpl. discriminate. Qed.

Lemma count_pos {A} (l : list A) : l <> [] -> 0 < count l.
Proof.
  intros Hl.
  assert (H0 : 0 <= count l).
  { rewrite <- sum_ones. apply sum_nonneg.
    intros q Hq. apply in_map_iff in Hq as [_ [<- _]]. apply Qc_0_le_1. }
  destruct (Qcle_lt_or_eq _ _ H0) as [H|H]; [exact H|].
  exfalso. symmetry in H. exact (count_neq_0 l Hl H).
Qed.

Lemma mean_between (f : Party -> Qc) (m M : Qc) (ps : list Party) :
  ps <> [] ->
  (forall p, In p ps -> m <= f p <= M) ->
  m <= mean f ps <= M.
Proof.
  intros Hne Hf. rewrite <- weightedMean_ones.
  apply weightedMean_between; [| |exact Hf].
  - intros p _. apply Qc_0_le_1.
  - rewrite sum_ones. now apply count_pos.
Qed.

Lemma count_single {A} (a : A) : count [a] = 1.
Proof. apply Qc_is_canon. reflexivity. Qed.

Lemma Qcdiv_1_r (x : Qc) : x / 1 = x.
Proof. field. exact Q_apart_0_1. Qed.

(** X14. With a single party selected the average is the position of that
    party when the weighting is off, and when it is on and the party weighs
    1 (it has no seat data, or one seat): the sum is the coordinate itself
    and the divisor is 1. *)
Theorem calculateAverage_single (c : UIController) (p : Party)
    (Hsel : selected c = Ok [p])
    (Hw : useWeighted c = true -> seatsOr 1 p = 1) :
  calculateAverage c
  = Ok (Some (Average.mk (Finite (posX p)) (Finite (posY p)))).
Proof.
  assert (Hne : [p] <> []) by discriminate.
  destruct (useWeighted c) eqn:E.
  - specialize (Hw eq_refl).
    rewrite (calculateAverage_weighted_pos c [p] Hsel Hne E).
    + unfold weightedMean. cbn [map]. rewrite !sum_cons.
      unfold sum. cbn [fold_right]. rewrite Hw, !Qcplus_0_r, !Qcmult_1_r.
      now rewrite !Qcdiv_1_r.
    + cbn [map]. rewrite sum_cons. unfold sum. cbn [fold_right].
      rewrite Hw, Qcplus_0_r. reflexivity.
  - rewrite (calculateAverage_simple_sums c [p] Hsel Hne E).
    rewrite !div_finite by (now apply count_neq_0).
    rewrite count_single. cbn [map]. rewrite !sum_cons.
    unfold sum. cbn [fold_right]. rewrite !Qcplus_0_r.
    now rewrite !Qcdiv_1_r.
Qed.

Lemma calculateAverage_single_witness :
  calculateAverage (demo demoParties [false; false; false; false; true] true)
  = Ok (Some (Average.mk (Finite (posX BIJ1)) (Finite (posY BIJ1)))).
Proof.
  apply (calculateAverage_single
           (demo demoParties [false; false; false; false; true] true) BIJ1).
  - reflexivity.
  - intros _. reflexivity.
Defined.

Lemma sum_filter_hasWeight (f : Party -> Qc) (ps : list Party) :
  sum (map (fun p => f p * seatsOr 1 p) (filter hasWeight ps))
  = sum (map (fun p => f p * seatsOr 1 p) ps).
Proof.
  induction ps as [|p ps IH]; [reflexivity|].
  cbn [filter map]. unfold hasWeight at 1.
  destruct (Qc_eqb (seatsOr 1 p) 0) eqn:E; cbn [negb map].
  - apply Qc_eqb_eq in E. rewrite sum_cons, IH, E. ring.
  - now rewrite !sum_cons, IH.
Qed.

Lemma total_filter_hasWeight (ps : list Party) :
  sum (map (seatsOr 1) (filter hasWeight ps)) = sum (map (seatsOr 1) ps).
Proof.
  induction ps as [|p ps IH]; [reflexivity|].
  cbn [filter map]. unfold hasWeight at 1.
  destruct (Qc_eqb (seatsOr 1 p) 0) eqn:E; cbn [negb map].
  - apply Qc_eqb_eq in E. rewrite sum_cons, IH, E. ring.
  - now rewrite !sum_cons, IH.
Qed.

(** X15. With the weighting on, parties with 0 seats do not move the
    average: as long as the total weight is positive, the selection and the
    same selection without its parties of 0 seats have the same average. *)
Theorem calculateAverage_ignores_zero_seats (c c' : UIController)
    (ps : list Party)
    (Hsel : selected c = Ok ps)
    (Hsel' : selected c' = Ok (filter hasWeight ps))
    (Hw : useWeighted c = true) (Hw' : useWeighted c' = true)
    (Hpos : 0 < sum (map (seatsOr 1) ps)) :
  calculateAverage c' = calculateAverage c.
Proof.
  assert (Hne : ps <> []).
  { intros ->. exact (Qlt_irrefl _ Hpos). }
  assert (Hpos' : 0 < sum (map (seatsOr 1) (filter hasWeight ps)))
    by (now rewrite total_filter_hasWeight).
  assert (Hne' : filter hasWeight ps <> []).
  { intros E. rewrite E in Hpos'. exact (Qlt_irrefl _ Hpos'). }
  rewrite (calculateAverage_weighted_pos c ps Hsel Hne Hw Hpos).
  rewrite (calculateAverage_weighted_pos c' _ Hsel' Hne' Hw' Hpos').
  unfold weightedMean.
  now rewrite !sum_filter_hasWeight, total_filter_hasWeight.
Qed.

Lemma calculateAverage_ignores_zero_seats_witness :
  calculateAverage (demo demoParties [true; true; false; false; false] true)
  = calculateAverage (demo demoParties [true; true; false; true; false] true).
Proof.
  apply (calculateAverage_ignores_zero_seats
           (demo demoParties [true; true; false; true; false] true)
           (demo demoParties [true; true; false; false; false] true)
           [D66; VVD; NSC]).
  - reflexivity.
  - vm_compute. reflexivity.
  - reflexivity.
  - reflexivity.
  - vm_compute. reflexivity.
Defined.




(** ** The size of the coalition statistics *)

Lemma Qcopp_0 : - 0 = 0.
Proof. ring. Qed.

Lemma Qcopp_nonneg (m : Qc) : m <= 0 -> 0 <= - m.
Proof. intros H. rewrite <- Qcopp_0. now apply Qcopp_le_compat. Qed.

Lemma signed_between (positive : string) (axis : option Axis.t) (B : Qc) :
  0 <= B ->
  (forall a, axis = Some a -> 0 <= Axis.value a <= B) ->
  - B <= signed positive axis <= B.
Proof.
  intros HB Ha.
  assert (HnB : - B <= 0).
  { rewrite <- Qcopp_0. now apply Qcopp_le_compat. }
  unfold signed. destruct axis as [a|].
  - destruct (Ha a eq_refl) as [H0 H1].
    destruct (String.eqb (Axis.direction a) positive).
    + split; [now apply Qcle_trans with 0 | exact H1].
    + split; [now apply Qcopp_le_compat|].
      apply Qcle_trans with 0; [|exact HB].
      rewrite <- Qcopp_0. now apply Qcopp_le_compat.
  - rewrite Qcopp_0. now split.
Qed.

Lemma display_between (positive negative : string) (m B : Qc) :
  - B <= m <= B ->
  exists q l,
    display positive negative m = AxisStat.mk (Finite q) l
    /\ 0 <= q <= B /\ (l = positive \/ l = negative).
Proof.
  intros [Hlo Hhi]. unfold display.
  destruct (Qc_leb 0 m) eqn:E.
  - apply Qc_leb_le in E. exists m, positive. repeat split; auto.
  - exists (- m), negative.
    assert (Hm : m <= 0).
    { apply Qclt_le_weak. apply Qcnot_le_lt. intros H.
      apply Qc_leb_le in H. congruence. }
    repeat split; auto.
    + now apply Qcopp_nonneg.
    + rewrite <- (Qcopp_involutive B). now apply Qcopp_le_compat.
Qed.

Lemma signedAverage_between (weighted : bool) (f : Party -> Qc) (B : Qc)
    (ps : list Party) :
  ps <> [] ->
  (weighted = true ->
   (forall p, In p ps -> 0 <= seatsOr 1 p) /\ 0 < sum (map (seatsOr 1) ps)) ->
  (forall p, In p ps -> - B <= f p <= B) ->
  - B <= signedAverage weighted f ps <= B.
Proof.
  intros Hne Hw Hf. unfold signedAverage. destruct weighted.
  - destruct (Hw eq_refl) as [Hnn Hpos]. now apply weightedMean_between.
  - now apply mean_between.
Qed.

(** X17. The coalition statistics stay within the scale of the data: if the
    axis values of the selected parties lie between 0 and a bound (100 for
    percentages), then both magnitudes that [updateCoalitionStats] shows are
    finite and lie between 0 and that bound, each with one of the two labels
    of its axis; with the weighting on this needs weights that are not
    negative and a positive total weight. *)
Theorem updateCoalitionStats_within_bound (total B : Qc) (c : UIController)
    (ps : list Party)
    (Hsel : selected c = Ok ps) (Hne : ps <> [])
    (Hw : useWeighted c = true ->
          (forall p, In p ps -> 0 <= seatsOr 1 p)
          /\ 0 < sum (map (seatsOr 1) ps))
    (HB : 0 <= B)
    (Hh : forall p a, In p ps ->
            PoliticalPosition.horizontal (politicalPosition p) = Some a ->
            0 <= Axis.value a <= B)
    (Hv : forall p a, In p ps ->
            PoliticalPosition.vertical (politicalPosition p) = Some a ->
            0 <= Axis.value a <= B) :
  exists h v lh lv,
    statsOf (updateCoalitionStats total c)
    = Some (CoalitionStats.mk total (AxisStat.mk (Finite h) lh)
                                    (AxisStat.mk (Finite v) lv))
    /\ 0 <= h <= B /\ 0 <= v <= B
    /\ (lh = "rechts" \/ lh = "links")
    /\ (lv = "conservatief" \/ lv = "progressief").
Proof.
  rewrite (updateCoalitionStats_mean total c ps Hsel Hne).
  - cbn [statsOf coalitionStatsContent set_coalitionStats
         set_coalitionStatsContent].
    destruct (display_between "rechts" "links"
                (signedAverage (useWeighted c) horizontalSigned ps) B)
      as [h [lh [Eh [Hhb Hlh]]]].
    { apply signedAverage_between; trivial.
      intros p Hp. apply signed_between; [exact HB|].
      intros a Ha. now apply (Hh p). }
    destruct (display_between "conservatief" "progressief"
                (signedAverage (useWeighted c) verticalSigned ps) B)
      as [v [lv [Ev [Hvb Hlv]]]].
    { apply signedAverage_between; trivial.
      intros p Hp. apply signed_between; [exact HB|].
      intros a Ha. now apply (Hv p). }
    exists h, v, lh, lv. rewrite Eh, Ev. repeat split; tauto.
  - intros E. destruct (Hw E) as [_ Hpos].
    intros E0. rewrite E0 in Hpos. exact (Qlt_irrefl _ Hpos).
Qed.

Lemma updateCoalitionStats_within_bound_witness :
  exists h v lh lv,
    statsOf (updateCoalitionStats (num 48)
               (demo demoParties [true; true; false; false; false] true))
    = Some (CoalitionStats.mk (num 48) (AxisStat.mk (Finite h) lh)
                                       (AxisStat.mk (Finite v) lv))
    /\ 0 <= h <= num 100 /\ 0 <= v <= num 100
    /\ (lh = "rechts" \/ lh = "links")
    /\ (lv = "conservatief" \/ lv = "progressief").
Proof.
  apply (updateCoalitionStats_within_bound (num 48) (num 100)
           (demo demoParties [true; true; false; false; false] true)
           [D66; VVD]).
  - reflexivity.
  - discriminate.
  - intros _. split.
    + intros p [<-|[<-|[]]]; vm_compute; discriminate.
    + vm_compute. reflexivity.
  - vm_compute. discriminate.
  - intros p a [<-|[<-|[]]] H; injection H as <-; split; vm_compute; discriminate.
  - intros p a [<-|[<-|[]]] H; injection H as <-; split; vm_compute; discriminate.
Defined.

(** ** [preSelectFromQuery] and [handleParse] *)

Lemma preSelectFrom_length {sp : StringPrototype}
    (queryParties : list string) (ps : list Party)
    (checkboxes : list bool) :
  List.length (preSelectFrom queryParties ps checkboxes)
  = List.length checkboxes.
Proof.
  revert checkboxes. induction ps as [|p ps IH]; intros [|b cb]; simpl; trivial.
  now rewrite IH.
Qed.

Lemma preSelectFrom_nth {sp : StringPrototype}
    (queryParties : list string) (ps : list Party)
    (checkboxes : list bool) (i : nat) :
  nth_error (preSelectFrom queryParties ps checkboxes) i = Some true
  <-> nth_error checkboxes i = Some true
      \/ ((i < List.length checkboxes)%nat
          /\ exists p, nth_error ps i = Some p
                       /\ In (toUpperCase (shortName p)) queryParties).
Proof.
  revert checkboxes i.
  induction ps as [|p ps IH]; intros cb i.
  - destruct cb; simpl; (split; [tauto|]);
      (intros [H|[_ [q [Hq _]]]]; [exact H|]); destruct i; discriminate.
  - destruct cb as [|b cb].
    + simpl. split; [tauto|]. intros [H|[H _]]; [exact H | simpl in H; lia].
    + cbn [preSelectFrom]. destruct i as [|i].
      * cbn [nth_error List.length].
        destruct (JSString.includes queryParties
                    (toUpperCase (shortName p))) eqn:E.
        -- split; [|reflexivity]. intros _. right. split; [lia|].
           exists p. split; [reflexivity | now apply includes_In].
        -- split; [tauto|]. intros [H|[_ [q [Hq Hin]]]]; [exact H|].
           injection Hq as <-. apply includes_In in Hin. congruence.
      * cbn [nth_error List.length]. rewrite IH. split.
        -- intros [H|[Hlt H]]; [now left | right; split; [lia | exact H]].
        -- intros [H|[Hlt H]]; [now left | right; split; [lia | exact H]].
Qed.

(** X18. [preSelectFromQuery] only ever checks boxes.  Afterwards a box is
    checked exactly when it was checked before or the upper-cased short name
    of its party is one of the names of the query string; no box is
    unchecked and the number of boxes stays. *)
Theorem preSelectFromQuery_boxes {sp : StringPrototype}
    (c : UIController)
    (Hboxes : (List.length (partyPicker c) <= List.length (parties c))%nat) :
  exists c',
    preSelectFromQuery c = Ok c'
    /\ List.length (partyPicker c') = List.length (partyPicker c)
    /\ (forall i,
          nth_error (partyPicker c') i = Some true
          <-> nth_error (partyPicker c) i = Some true
              \/ ((i < List.length (partyPicker c))%nat
                  /\ exists p,
                      nth_error (parties c) i = Some p
                      /\ In (toUpperCase (shortName p))
                            (getQueryParties c))).
Proof.
  unfold preSelectFromQuery.
  destruct (List.length (getQueryParties c) =? 0)%nat eqn:E.
  - exists c. split; [reflexivity|]. split; [reflexivity|].
    apply Nat.eqb_eq in E.
    destruct (getQueryParties c); [|discriminate].
    intros i. split; [tauto|]. intros [H|[_ [p [_ []]]]]. exact H.
  - set (c2 := set_partyPicker _ c).
    destruct (checked_in_range c2) as [ps [a [Hps Ha]]].
    { intros i Hi.
      assert (i < List.length (partyPicker c2))%nat
        by (apply nth_error_Some; congruence).
      unfold c2 in H. cbn [partyPicker set_partyPicker] in H.
      rewrite preSelectFrom_length in H.
      unfold c2. cbn [parties set_partyPicker]. lia. }
    exists (afterSelection c2 ps a).
    split; [now apply handlePartySelection_result|].
    cbn [afterSelection partyPicker]. unfold c2.
    cbn [partyPicker set_partyPicker].
    split; [apply preSelectFrom_length|].
    intros i. apply preSelectFrom_nth.
Qed.

Lemma preSelectFromQuery_boxes_witness :
  exists c',
    preSelectFromQuery (sp := asciiStrings)
      (page demoParties [false; true; false; false; false] false
            [("parties", "d66,xyz")])
    = Ok c'
    /\ List.length (partyPicker c') = 5%nat
    /\ (forall i,
          nth_error (partyPicker c') i = Some true
          <-> nth_error [false; true; false; false; false] i = Some true
              \/ ((i < 5)%nat
                  /\ exists p,
                      nth_error demoParties i = Some p
                      /\ In (JSString.toUpperCase (shortName p))
                            ["D66"; "XYZ"])).
Proof.
  apply (preSelectFromQuery_boxes (sp := asciiStrings)
           (page demoParties [false; true; false; false; false] false
                 [("parties", "d66,xyz")])).
  vm_compute. lia.
Defined.

Lemma sortBySeats_length (data : list Party) :
  List.length (sortBySeats data) = List.length data.
Proof. symmetry. apply Permutation_length. apply sortBySeats_perm. Qed.

(** X19. For a document whose names and direction labels are plain text
    (no character that opens a tag or closes an attribute value, so that the
    markup of the picker holds one check box per party and no other),
    loading the page does not throw, whatever the query string holds.
    Afterwards the table is the sorted document, there is one check box per
    party, every selected index is an index of the table, and the diagram
    is in place. *)
Theorem handleParse_loads {sp : StringPrototype}
    (data : list Party) (svg : Svg.t)
    (w : option bool) (url : URLSearchParams.t)
    (Hplain : plainNames data = true) :
  exists c',
    handleParse data svg (newUIController w url) = Ok c'
    /\ parties c' = sortBySeats data
    /\ List.length (partyPicker c') = List.length data
    /\ (forall i, In i (selectedParties c') -> (i < List.length data)%nat)
    /\ exists svg', svgDisplay c' = Some svg'
                    /\ Svg.compass svg' = Svg.compass svg.
Proof.
  unfold handleParse.
  set (c0 := set_svgDisplay (Some svg)
               (displayPartyPicker
                  (set_parties (sortBySeats data) (newUIController w url)))).
  assert (Hlen : List.length (partyPicker c0) = List.length (parties c0)).
  { unfold c0. cbn. apply repeat_length. }
  unfold preSelectFromQuery.
  destruct (List.length (getQueryParties c0) =? 0)%nat.
  - exists c0. split; [reflexivity|]. unfold c0. cbn.
    rewrite repeat_length, sortBySeats_length.
    repeat split; try tauto. now exists svg.
  - set (c2 := set_partyPicker _ c0).
    assert (Hlen2 : List.length (partyPicker c2) = List.length (parties c0)).
    { unfold c2. cbn [partyPicker set_partyPicker].
      now rewrite preSelectFrom_length. }
    destruct (checked_in_range c2) as [ps [a [Hps Ha]]].
    { intros i Hi.
      assert (i < List.length (partyPicker c2))%nat
        by (apply nth_error_Some; congruence).
      unfold c2. cbn [parties set_partyPicker]. lia. }
    exists (afterSelection c2 ps a).
    split; [now apply handlePartySelection_result|].
    cbn [afterSelection parties partyPicker selectedParties svgDisplay].
    rewrite Hlen2.
    assert (Hp : parties c0 = sortBySeats data) by reflexivity.
    rewrite Hp, sortBySeats_length.
    refine (conj eq_refl (conj eq_refl (conj _ _))).
    + intros i Hi. apply checkedFrom_In in Hi as [_ Hi].
      rewrite Nat.sub_0_r in Hi.
      assert (i < List.length (partyPicker c2))%nat
        by (apply nth_error_Some; congruence).
      rewrite Hlen2, Hp, sortBySeats_length in H. exact H.
    + eexists. split; reflexivity.
Qed.

Lemma handleParse_loads_witness :
  exists c',
    handleParse (sp := asciiStrings) [VVD; BIJ1; D66] (Svg.mk true None)
      (newUIController None [("parties", "bij1, vvd ,nope")])
    = Ok c'
    /\ parties c' = sortBySeats [VVD; BIJ1; D66]
    /\ List.length (partyPicker c') = 3%nat
    /\ (forall i, In i (selectedParties c') -> (i < 3)%nat)
    /\ exists svg', svgDisplay c' = Some svg' /\ Svg.compass svg' = true.
Proof.
  apply (handleParse_loads (sp := asciiStrings)
           [VVD; BIJ1; D66] (Svg.mk true None) None
           [("parties", "bij1, vvd ,nope")]).
  reflexivity.
Defined.

(** X20. Without names in the query string, that is with the [parties] key
    absent or empty, loading the page selects nothing and does not run
    [handlePartySelection]: no box is checked, the selection text and the
    statistics are not written, no marker is drawn, and the query string is
    left as it is, an empty [parties] key included. *)
Theorem handleParse_without_names {sp : StringPrototype}
    (data : list Party) (svg : Svg.t)
    (w : option bool) (url : URLSearchParams.t)
    (Hurl : URLSearchParams.get url "parties" = None
            \/ URLSearchParams.get url "parties" = Some "") :
  handleParse data svg (newUIController w url)
  = Ok (mkUI (sortBySeats data) [] w
             (repeat false (List.length (sortBySeats data)))
             "" DisplayUnset None (Some svg) url).
Proof.
  unfold handleParse, preSelectFromQuery.
  set (c0 := set_svgDisplay (Some svg)
               (displayPartyPicker
                  (set_parties (sortBySeats data) (newUIController w url)))).
  assert (Hq : getQueryParties c0 = []).
  { unfold getQueryParties. change (location c0) with url.
    destruct Hurl as [-> | ->]; reflexivity. }
  rewrite Hq. reflexivity.
Qed.

Lemma handleParse_without_names_witness :
  handleParse (sp := asciiStrings) [VVD; D66] (Svg.mk true None)
    (newUIController (Some true) [("parties", ""); ("lang", "nl")])
  = Ok (mkUI (sortBySeats [VVD; D66]) [] (Some true)
             (repeat false (List.length (sortBySeats [VVD; D66])))
             "" DisplayUnset None (Some (Svg.mk true None))
             [("parties", ""); ("lang", "nl")]).
Proof.
  apply (handleParse_without_names (sp := asciiStrings) [VVD; D66] (Svg.mk true None) (Some true)
           [("parties", ""); ("lang", "nl")]).
  right. reflexivity.
Defined.

Lemma checkedFrom_repeat_false (n k : nat) : checkedFrom k (repeat false n) = [].
Proof. revert k. induction n as [|n IH]; intros k; simpl; [reflexivity | apply IH]. Qed.

Lemma preSelectFrom_none {sp : StringPrototype}
    (queryParties : list string) (ps : list Party) :
  (forall p, In p ps ->
             ~ In (toUpperCase (shortName p)) queryParties) ->
  preSelectFrom queryParties ps (repeat false (List.length ps))
  = repeat false (List.length ps).
Proof.
  induction ps as [|p ps IH]; intros H; simpl; [reflexivity|].
  rewrite IH by (intros q Hq; apply H; now right).
  destruct (JSString.includes queryParties (toUpperCase (shortName p)))
    eqn:E; [|reflexivity].
  apply includes_In in E. exfalso. exact (H p (or_introl eq_refl) E).
Qed.

(** X21. A query string whose names match no party, for a document of
    plain text: when no upper-cased short name of the document is among the
    trimmed and upper-cased names of the parameter, loading the page checks
    no box, selects nothing, shows "Geselecteerd: geen", draws no marker,
    and removes the [parties] key from the query string. *)
Theorem handleParse_unknown_names {sp : StringPrototype}
    (data : list Party) (svg : Svg.t)
    (w : option bool) (url : URLSearchParams.t) (v : string)
    (Hplain : plainNames data = true)
    (Hurl : URLSearchParams.get url "parties" = Some v)
    (Hv : v <> "")
    (Hunknown : forall p, In p data ->
       ~ In (toUpperCase (shortName p))
            (map (fun s => toUpperCase (trim s))
                 (JSString.split v))) :
  exists c',
    handleParse data svg (newUIController w url) = Ok c'
    /\ selectedParties c' = []
    /\ partyPicker c' = repeat false (List.length data)
    /\ selectedCount c' = "Geselecteerd: geen"
    /\ marker c' = None
    /\ URLSearchParams.has (location c') "parties" = false.
Proof.
  unfold handleParse, preSelectFromQuery.
  set (c0 := set_svgDisplay (Some svg)
               (displayPartyPicker
                  (set_parties (sortBySeats data) (newUIController w url)))).
  assert (Hq : getQueryParties c0
               = map (fun s => toUpperCase (trim s))
                     (JSString.split v)).
  { unfold getQueryParties. change (location c0) with url. rewrite Hurl.
    destruct v; [congruence | reflexivity]. }
  rewrite Hq.
  destruct (List.length _ =? 0)%nat eqn:E.
  { apply Nat.eqb_eq in E. rewrite length_map in E.
    pose proof (split_not_nil v). destruct (JSString.split v);
      [contradiction | discriminate]. }
  change (parties c0) with (sortBySeats data).
  change (partyPicker c0) with (repeat false (List.length (sortBySeats data))).
  rewrite preSelectFrom_none.
  2:{ intros p Hp. apply Hunknown.
      exact (Permutation_in p (Permutation_sym (sortBySeats_perm data)) Hp). }
  set (c2 := set_partyPicker _ c0).
  assert (Hps : mapM (party c2) (checkedFrom 0 (partyPicker c2)) = Ok []).
  { unfold c2. cbn [partyPicker set_partyPicker].
    now rewrite checkedFrom_repeat_false. }
  assert (Ha : calculateAverage
                 (set_selectedParties (checkedFrom 0 (partyPicker c2)) c2)
               = Ok None).
  { apply calculateAverage_empty. unfold c2.
    cbn [selectedParties set_selectedParties partyPicker set_partyPicker].
    apply checkedFrom_repeat_false. }
  exists (afterSelection c2 [] None).
  split; [now apply handlePartySelection_result|].
  unfold afterSelection, marker.
  cbn [selectedParties partyPicker selectedCount svgDisplay location map].
  unfold c2. cbn [partyPicker set_partyPicker svgDisplay c0 set_svgDisplay].
  rewrite checkedFrom_repeat_false, sortBySeats_length.
  repeat split.
  apply (proj1 (updateQueryParams_empty _)).
Qed.

Lemma handleParse_unknown_names_witness :
  exists c',
    handleParse (sp := asciiStrings) [VVD; D66] (Svg.mk true None)
      (newUIController (Some true) [("parties", "xyz"); ("lang", "nl")])
    = Ok c'
    /\ selectedParties c' = []
    /\ partyPicker c' = repeat false 2
    /\ selectedCount c' = "Geselecteerd: geen"
    /\ marker c' = None
    /\ URLSearchParams.has (location c') "parties" = false.
Proof.
  apply (handleParse_unknown_names (sp := asciiStrings)
           [VVD; D66] (Svg.mk true None) (Some true)
           [("parties", "xyz"); ("lang", "nl")] "xyz").
  - reflexivity.
  - reflexivity.
  - discriminate.
  - intros p [<-|[<-|[]]]; vm_compute; intros [H|[]]; discriminate.
Defined.

(** X22. Loading the page restores the selection and writes the parameter
    back in the letter case of the party table.  Let the document be plain
    text, and let a selection be as in the round trip: the selected short
    names free of commas and of outer white space, their join not empty, and
    no other party with the short name of a selected one, letter case
    ignored.  If the [parties] parameter was written for this selection and
    the page is opened with it in any letter case, then the same parties are
    selected and the query string holds the parameter exactly as it was
    written. *)
Theorem handleParse_canonical_query
    {sp : StringPrototype} {laws : StringPrototypeLaws sp}
    (data : list Party) (c : UIController) (v u : string)
    (w : option bool) (svg : Svg.t) (url : URLSearchParams.t)
    (Hplain : plainNames data = true)
    (Htable : parties c = sortBySeats data)
    (Hboxes : List.length (partyPicker c) = List.length (parties c))
    (Hok : survivesQuery (parties c) (partyPicker c) = true)
    (Hquery : queryOf (handlePartySelection c) = Some v)
    (Hcase : toUpperCase u = toUpperCase v)
    (Hurl : URLSearchParams.get url "parties" = Some u) :
  queryOf (handleParse data svg (newUIController w url)) = Some v
  /\ selectionOf (handleParse data svg (newUIController w url))
     = selectionOf (handlePartySelection c).
Proof.
  destruct (handlePartySelection c) as [c1|] eqn:Hstep; [|discriminate].
  destruct (handlePartySelection_inv c c1 Hstep) as [ps [a [Hps [Ha ->]]]].
  cbn [selectionOf queryOf afterSelection selectedParties location] in *.
  assert (Hpsq : ps = checkedParties (parties c) (partyPicker c))
    by (apply checked_parties; [lia | exact Hps]).
  assert (Hnm : map shortName ps <> []).
  { subst ps. unfold survivesQuery in Hok. cbv zeta in Hok.
    apply andb_true_iff in Hok as [Hok _].
    apply andb_true_iff in Hok as [_ Hok].
    intros E. rewrite E in Hok. discriminate. }
  rewrite (updateQueryParams_nonempty _ c Hnm) in Hquery.
  injection Hquery as <-. rewrite Hpsq in Hcase.
  unfold handleParse.
  set (c0 := set_svgDisplay (Some svg)
               (displayPartyPicker
                  (set_parties (sortBySeats data) (newUIController w url)))).
  assert (Hc0 : preSelectFromQuery c0
                = handlePartySelection (set_partyPicker (partyPicker c) c0)).
  { apply (restore_boxes c c0 u Hboxes Hok Hcase).
    - now rewrite Htable.
    - rewrite Htable. reflexivity.
    - exact Hurl. }
  rewrite Hc0.
  set (c2 := set_partyPicker _ c0).
  assert (Hps2 : mapM (party c2) (checkedFrom 0 (partyPicker c2)) = Ok ps).
  { rewrite (mapM_party_table c c2); [exact Hps | now rewrite Htable]. }
  destruct (calculateAverage_ok
              (set_selectedParties (checkedFrom 0 (partyPicker c2)) c2) ps Hps2)
    as [a2 Ha2].
  rewrite (handlePartySelection_result c2 ps a2 Hps2 Ha2).
  cbn [queryOf selectionOf afterSelection location selectedParties].
  split; [now apply updateQueryParams_nonempty | reflexivity].
Qed.

Lemma handleParse_canonical_query_witness :
  queryOf
    (handleParse (sp := asciiStrings)
       [VVD; BIJ1; D66; NSC; PvdAGL] (Svg.mk true None)
       (newUIController (Some false)
          [("lang", "nl"); ("parties", "d66,pvda-gl")]))
  = Some "D66,PvdA-GL".
Proof.
  refine (proj1 (handleParse_canonical_query (laws := asciiStrings_laws)
                   [VVD; BIJ1; D66; NSC; PvdAGL]
                   (page (sortBySeats [VVD; BIJ1; D66; NSC; PvdAGL])
                         [true; false; true; false; false] true
                         [("lang", "nl")])
                   "D66,PvdA-GL" "d66,pvda-gl" (Some false) (Svg.mk true None)
                   [("lang", "nl"); ("parties", "d66,pvda-gl")]
                   _ _ _ _ _ _ _)).
  - reflexivity.
  - reflexivity.
  - vm_compute. reflexivity.
  - vm_compute. reflexivity.
  - vm_compute. reflexivity.
  - vm_compute. reflexivity.
  - vm_compute. reflexivity.
Defined.

(** ** [filterParties] *)

Section SearchFacts.
Import JSSearch.

Lemma toLowerCase_app (a b : string) :
  toLowerCase (a ++ b) = toLowerCase a ++ toLowerCase b.
Proof. induction a as [|c a IH]; simpl; [reflexivity | now rewrite IH]. Qed.

Lemma startsWith_refl (s : string) : startsWith s s = true.
Proof.
  induction s as [|c s IH]; simpl; [reflexivity|].
  now rewrite Ascii.eqb_refl, IH.
Qed.

Lemma startsWith_empty (s : string) : startsWith s "" = true.
Proof. destruct s; reflexivity. Qed.

Lemma includes_empty (s : string) : includes s "" = true.
Proof. destruct s; reflexivity. Qed.

Lemma includes_refl (s : string) : includes s s = true.
Proof. destruct s; simpl; [reflexivity|]. now rewrite Ascii.eqb_refl, startsWith_refl. Qed.

Lemma includes_tail (c : ascii) (s t : string) :
  includes s t = true -> includes (String c s) t = true.
Proof. intros H. cbn [includes]. rewrite H. apply orb_true_r. Qed.

Lemma startsWith_app_l (s a b : string) :
  startsWith s (a ++ b) = true -> startsWith s a = true.
Proof.
  revert s. induction a as [|c a IH]; intros s H; [apply startsWith_empty|].
  change (String c a ++ b) with (String c (a ++ b)) in H.
  destruct s as [|d s]; [discriminate|]. cbn [startsWith] in *.
  apply andb_true_iff in H as [Hc H]. now rewrite Hc, (IH s H).
Qed.

Lemma startsWith_app_r (s a b : string) :
  startsWith s (a ++ b) = true -> includes s b = true.
Proof.
  revert s. induction a as [|c a IH]; intros s H.
  - change ("" ++ b) with b in H. destruct s; cbn [includes]; now rewrite H.
  - change (String c a ++ b) with (String c (a ++ b)) in H.
    destruct s as [|d s]; [discriminate|]. cbn [startsWith] in H.
    apply andb_true_iff in H as [_ H].
    apply includes_tail. now apply IH.
Qed.

Lemma includes_app (s a b : string) :
  includes s (a ++ b) = true -> includes s a = true /\ includes s b = true.
Proof.
  induction s as [|c s IH]; intros H.
  - cbn [includes] in H. rewrite orb_false_r in H.
    split; [|now apply (startsWith_app_r _ a)].
    cbn [includes]. now rewrite (startsWith_app_l _ a b H).
  - cbn [includes] in H. apply orb_true_iff in H as [H|H].
    + split; [|now apply (startsWith_app_r _ a)].
      cbn [includes]. now rewrite (startsWith_app_l _ a b H).
    + destruct (IH H) as [Ha Hb]. split; now apply includes_tail.
Qed.

End SearchFacts.

Lemma filterParties_shown (t : string) (es : list PartyElement.t)
    (i : nat) (e : PartyElement.t) :
  nth_error es i = Some e ->
  exists e',
    nth_error (filterParties t es) i = Some e'
    /\ PartyElement.partyName e' = PartyElement.partyName e
    /\ PartyElement.partyShort e' = PartyElement.partyShort e
    /\ shown e'
       = JSSearch.includes (PartyElement.partyName e) (JSSearch.toLowerCase t)
         || JSSearch.includes (PartyElement.partyShort e) (JSSearch.toLowerCase t).
Proof.
  intros H. unfold filterParties. cbv zeta.
  rewrite (map_nth_error _ _ _ H). eexists. split; [reflexivity|].
  destruct (_ || _); repeat split.
Qed.

(** X23. [filterParties] decides afresh for every element: the outcome
    depends on the search box and the data attributes only, not on what was
    shown or hidden before, and with an empty search box every element is
    shown. *)
Theorem filterParties_afresh (t t' : string) (es : list PartyElement.t) :
  filterParties t (filterParties t' es) = filterParties t es
  /\ forallb shown (filterParties "" es) = true.
Proof.
  split.
  - unfold filterParties. cbv zeta. rewrite map_map. apply map_ext.
    intros e.
    destruct (JSSearch.includes (PartyElement.partyName e)
                (JSSearch.toLowerCase t')
              || JSSearch.includes (PartyElement.partyShort e)
                   (JSSearch.toLowerCase t')); reflexivity.
  - apply forallb_forall. intros e He.
    unfold filterParties in He. apply in_map_iff in He as [e0 [<- _]].
    cbv zeta. cbn [JSSearch.toLowerCase].
    now rewrite includes_empty.
Qed.

(** X24. For a search text of ASCII characters, where lower case is the map
    of A to Z onto a to z, typing more into the search box never brings an
    element back: an element that is shown for a search text is shown for
    every part of that text, so what is hidden for a text stays hidden when
    the text is extended at either end. *)
Theorem filterParties_narrowing (t t' : string) (es : list PartyElement.t)
    (i : nat) (e : PartyElement.t)
    (Hascii : isAscii (t ++ t') = true)
    (Hi : nth_error (filterParties (t ++ t') es) i = Some e)
    (Hshown : shown e = true) :
  (exists e1, nth_error (filterParties t es) i = Some e1 /\ shown e1 = true)
  /\ (exists e2, nth_error (filterParties t' es) i = Some e2 /\ shown e2 = true).
Proof.
  destruct (nth_error es i) as [e0|] eqn:E0.
  2:{ unfold filterParties in Hi. rewrite nth_error_map, E0 in Hi. discriminate. }
  destruct (filterParties_shown (t ++ t') es i e0 E0) as [e' [H1 [_ [_ H2]]]].
  rewrite Hi in H1. injection H1 as <-. rewrite Hshown in H2.
  rewrite toLowerCase_app in H2. symmetry in H2.
  assert (G : forall s, JSSearch.includes s
                          (JSSearch.toLowerCase t ++ JSSearch.toLowerCase t')
                        = true ->
                        JSSearch.includes s (JSSearch.toLowerCase t) = true
                        /\ JSSearch.includes s (JSSearch.toLowerCase t') = true)
    by (intros s; apply includes_app).
  destruct (filterParties_shown t es i e0 E0) as [e1 [K1 [_ [_ K2]]]].
  destruct (filterParties_shown t' es i e0 E0) as [e2 [L1 [_ [_ L2]]]].
  split; [exists e1 | exists e2]; (split; [assumption|]).
  - rewrite K2. apply orb_true_iff in H2 as [H2|H2];
      apply G in H2 as [H2 _]; rewrite H2; [reflexivity | apply orb_true_r].
  - rewrite L2. apply orb_true_iff in H2 as [H2|H2];
      apply G in H2 as [_ H2]; rewrite H2; [reflexivity | apply orb_true_r].
Qed.

Lemma filterParties_narrowing_witness :
  (exists e1,
      nth_error (filterParties "Pvd"
                   [PartyElement.mk "democraten 66" "d66" "";
                    PartyElement.mk "partij van de arbeid/groenlinks" "pvda-gl" "none"])
                1
      = Some e1 /\ shown e1 = true)
  /\ (exists e2,
        nth_error (filterParties "A-G"
                     [PartyElement.mk "democraten 66" "d66" "";
                      PartyElement.mk "partij van de arbeid/groenlinks" "pvda-gl" "none"])
                  1
        = Some e2 /\ shown e2 = true).
Proof.
  apply (filterParties_narrowing "Pvd" "A-G"
           [PartyElement.mk "democraten 66" "d66" "";
            PartyElement.mk "partij van de arbeid/groenlinks" "pvda-gl" "none"]
           1 (PartyElement.mk "partij van de arbeid/groenlinks" "pvda-gl" "")).
  - reflexivity.
  - reflexivity.
  - reflexivity.
Defined.

Example filterParties_ex :
  map shown
    (filterParties "Groen"
       [PartyElement.mk "democraten 66" "d66" "";
        PartyElement.mk "partij van de arbeid/groenlinks" "pvda-gl" "none"])
  = [false; true].
Proof. reflexivity. Qed.

(** ** The short names of the extractor and the query string *)

Lemma NoDup_distinct (l : list string) : NoDup l -> distinct l = true.
Proof.
  induction 1 as [|s l Hs Hl IH]; simpl; [reflexivity|].
  rewrite IH, andb_true_r. apply negb_true_iff.
  destruct (JSString.includes l s) eqn:E; [|reflexivity].
  apply includes_In in E. contradiction.
Qed.

Lemma upperInjectiveOn_spec (l : list string) :
  upperInjectiveOn l = true ->
  forall s t, In s l -> In t l ->
    JSString.toUpperCase s = JSString.toUpperCase t -> s = t.
Proof.
  unfold upperInjectiveOn. intros H s t Hs Ht E.
  rewrite forallb_forall in H. specialize (H s Hs).
  rewrite forallb_forall in H. specialize (H t Ht).
  rewrite E, String.eqb_refl in H. now apply String.eqb_eq.
Qed.

(** X25. The short names that the extractor gives out meet the conditions
    of the round trip through the query string: a document whose parties
    carry short names of the table of [getShortName], no two parties the
    same one, has short names that are non-empty, free of commas, without
    outer white space and different up to letter case, also after the sort
    of [handleParse]. *)
Theorem knownShortNames_ok (data : list Party)
    (Hknown : forall p, In p data -> In (shortName p) knownShortNames)
    (Hdistinct : NoDup (map shortName data)) :
  shortNamesOk (sortBySeats data) = true.
Proof.
  pose proof (sortBySeats_perm data) as Hperm.
  unfold shortNamesOk. apply andb_true_iff. split.
  - apply forallb_forall. intros p Hp.
    apply (Permutation_in p (Permutation_sym Hperm)) in Hp.
    assert (Hall : forallb nameOk knownShortNames = true)
      by (vm_compute; reflexivity).
    rewrite forallb_forall in Hall. apply Hall. now apply Hknown.
  - apply NoDup_distinct.
    rewrite <- (map_map shortName JSString.toUpperCase).
    apply NoDup_map_NoDup_ForallPairs.
    + intros s t Hs Ht E.
      refine (upperInjectiveOn_spec knownShortNames _ s t _ _ E).
      * vm_compute. reflexivity.
      * apply in_map_iff in Hs as [p [<- Hp]]. apply Hknown.
        exact (Permutation_in p (Permutation_sym Hperm) Hp).
      * apply in_map_iff in Ht as [p [<- Hp]]. apply Hknown.
        exact (Permutation_in p (Permutation_sym Hperm) Hp).
    + apply (Permutation_NoDup (l := map shortName data)); [|exact Hdistinct].
      now apply Permutation_map.
Qed.

Lemma knownShortNames_ok_witness :
  shortNamesOk (sortBySeats [VVD; D66; NSC; PvdAGL]) = true.
Proof.
  apply (knownShortNames_ok [VVD; D66; NSC; PvdAGL]).
  - intros p [<-|[<-|[<-|[<-|[]]]]]; vm_compute; tauto.
  - vm_compute. repeat constructor; simpl; intuition discriminate.
Defined.

(** ** Tables of good short names *)

Lemma distinct_NoDup (l : list string) : distinct l = true -> NoDup l.
Proof.
  induction l as [|s l IH]; simpl; intros H; [constructor|].
  apply andb_true_iff in H as [Hs Hl]. constructor; [|now apply IH].
  intros Hin. apply includes_In in Hin.
  rewrite Hin in Hs. discriminate.
Qed.

Lemma nth_error_combine {A B} (l : list A) (l' : list B) (i : nat) (a : A)
    (b : B) :
  nth_error (combine l l') i = Some (a, b) ->
  nth_error l i = Some a /\ nth_error l' i = Some b.
Proof.
  revert l' i. induction l as [|x l IH]; intros l' i H.
  - destruct i; discriminate.
  - destruct l' as [|y l']; [destruct i; discriminate|].
    destruct i as [|i]; cbn [combine nth_error] in *.
    + injection H as -> ->. now split.
    + now apply IH.
Qed.

Lemma join_truthy (sep a : string) (l : list string) :
  JSString.truthy a = true -> JSString.truthy (JSString.join sep (a :: l)) = true.
Proof.
  destruct a as [|c a]; [discriminate|]. intros _.
  destruct l; reflexivity.
Qed.

(** A table of short names that are not empty, free of commas, without
    outer white space and different up to letter case: every selection of
    at least one party meets the conditions of the round trip.  This is for
    ASCII names, as those of the extractor are. *)
Lemma shortNamesOk_survivesQuery (table : list Party) (checkboxes : list bool) :
  shortNamesOk table = true ->
  checkedParties table checkboxes <> [] ->
  survivesQuery (sp := asciiStrings) table checkboxes = true.
Proof.
  intros Hnames Hne. unfold shortNamesOk in Hnames.
  apply andb_true_iff in Hnames as [Hok Hdist].
  rewrite forallb_forall in Hok. apply distinct_NoDup in Hdist.
  assert (Hsub : forall p, In p (checkedParties table checkboxes) ->
                           In (p, true) (combine table checkboxes)).
  { intros p Hp. unfold checkedParties in Hp.
    apply in_map_iff in Hp as [[q d] [<- Hq]].
    apply filter_In in Hq as [Hq Hd]. cbn [snd fst] in *. now subst d. }
  assert (Hin : forall p b, In (p, b) (combine table checkboxes) -> In p table)
    by (intros p b H; exact (in_combine_l _ _ _ _ H)).
  unfold survivesQuery. cbv zeta. cbn [toUpperCase trim asciiStrings].
  apply andb_true_iff. split; [apply andb_true_iff; split|].
  - apply forallb_forall. intros n Hn.
    apply in_map_iff in Hn as [p [<- Hp]].
    specialize (Hok p (Hin p true (Hsub p Hp))). unfold nameOk in Hok.
    apply andb_true_iff in Hok as [Hok Ht].
    apply andb_true_iff in Hok as [_ Hc]. now rewrite Hc, Ht.
  - destruct (checkedParties table checkboxes) as [|p ps] eqn:E;
      [contradiction|].
    cbn [map]. apply join_truthy.
    specialize (Hok p (Hin p true (Hsub p (or_introl eq_refl)))).
    unfold nameOk in Hok.
    apply andb_true_iff in Hok as [Hok _].
    now apply andb_true_iff in Hok as [Hok _].
  - apply forallb_forall. intros [p b] Hp. cbn [snd fst].
    destruct b; [reflexivity|]. cbn [orb]. apply negb_true_iff.
    destruct (JSString.includes _ _) eqn:E; [|reflexivity]. exfalso.
    apply includes_In in E. rewrite map_map in E.
    apply in_map_iff in E as [q [Eq Hq]].
    apply Hsub in Hq.
    apply In_nth_error in Hp as [i Hi]. apply In_nth_error in Hq as [j Hj].
    apply nth_error_combine in Hi as [Hi Hib].
    apply nth_error_combine in Hj as [Hj Hjb].
    assert (Hij : i = j).
    { apply (proj1 (NoDup_nth_error _) Hdist).
      - rewrite length_map. apply nth_error_Some. congruence.
      - rewrite !nth_error_map, Hi, Hj. cbn [option_map]. now rewrite Eq. }
    subst j. congruence.
Qed.
